(** * express-dynamodb: a shallow embedding of the operation facade

    The development follows the three source modules of the package:

    - [dynamodb-client.ts]: the module variable [ddbClient] and its setters;
    - [dynamodb-doc.ts]: the document client [ddbDocClient], built once from
      [ddbClient] when the module is loaded;
    - [index.ts]: the facade ([insertOrUpdate], [deleteOne], [findOne],
      [findMany], [findManyByField], [findManyPlain], [findOperated],
      [findWithin], [findAll]).

    JavaScript objects are plain objects, given as the association list of
    their own enumerable properties in enumeration order (integer-like names
    first, in ascending order, then the other names in order of creation), so
    that [Object.keys] is the list of first components.  Reading a property
    looks at the own properties first and then at what the object inherits
    from [Object.prototype]; writing one by assignment may be taken by a
    setter of the prototype.  The AWS SDK is not part of the package: its
    functions ([marshall], [unmarshall], the network behind [send]) are
    fields of the class [Platform], as is what the JavaScript runtime puts in
    [Object.prototype].  Asynchronous functions are computations over an
    explicit world (module variables, backing store, log of issued requests,
    console); a rejected promise is a [Throw] completion. *)

From Stdlib Require Import String Ascii List Bool Arith ZArith Lia DecimalString DecimalNat.
Import ListNotations.
Open Scope string_scope.

#[local] Set Warnings "-register-all".

(** ** Generic helpers for JavaScript arrays and objects *)

(** [arr.map((x, index) => f x index)] *)
Fixpoint mapi_from {A B} (i : nat) (f : A -> nat -> B) (l : list A) : list B :=
  match l with
  | [] => []
  | x :: r => f x i :: mapi_from (S i) f r
  end.

Definition mapi {A B} (f : A -> nat -> B) (l : list A) : list B :=
  mapi_from 0 f l.

(** [arr.reduce((accumulator, x, index) => f accumulator x index, init)] *)
Fixpoint reduce_from {A B} (i : nat) (f : B -> A -> nat -> B) (l : list A)
  (acc : B) : B :=
  match l with
  | [] => acc
  | x :: r => reduce_from (S i) f r (f acc x i)
  end.

Definition reduce {A B} (f : B -> A -> nat -> B) (l : list A) (init : B) : B :=
  reduce_from 0 f l init.

(** [arr.join(sep)] on an array of strings *)
Definition join (sep : string) (l : list string) : string :=
  String.concat sep l.

(** The decimal text of an array index, as a template literal prints it. *)
Definition index_to_string (n : nat) : string :=
  NilEmpty.string_of_uint (Nat.to_uint n).

(** An object as the list of its own properties, in property order. *)
Definition Obj (V : Type) : Type := list (string * V).

Definition Object_keys {V} (o : Obj V) : list string := map fst o.

(** [o[k]], [None] standing for [undefined]. *)
Fixpoint prop_lookup {V} (o : Obj V) (k : string) : option V :=
  match o with
  | [] => None
  | (k', v) :: r => if String.eqb k' k then Some v else prop_lookup r k
  end.

(** A property name that is an array index: the canonical decimal text of
    an integer below [2^32 - 1].  Such names are enumerated first, in
    ascending order. *)
Definition array_index (k : string) : option N :=
  match NilEmpty.uint_of_string k with
  | Some d =>
      let n := N.of_uint d in
      if String.eqb (NilEmpty.string_of_uint (N.to_uint n)) k
         && N.ltb n 4294967295
      then Some n
      else None
  | None => None
  end.

Definition prop_owns {V} (o : Obj V) (k : string) : bool :=
  match prop_lookup o k with
  | Some _ => true
  | None => false
  end.

(** The value of an own property is replaced where the property is. *)
Fixpoint prop_replace {V} (o : Obj V) (k : string) (v : V) : Obj V :=
  match o with
  | [] => []
  | (k', v') :: r =>
      if String.eqb k' k then (k', v) :: r else (k', v') :: prop_replace r k v
  end.

(** A new property named by the array index [n] goes before the first
    property that is not an array index or is a larger one. *)
Fixpoint prop_add_index {V} (o : Obj V) (n : N) (k : string) (v : V) : Obj V :=
  match o with
  | [] => [(k, v)]
  | (k', v') :: r =>
      match array_index k' with
      | Some m =>
          if N.ltb m n then (k', v') :: prop_add_index r n k v
          else (k, v) :: (k', v') :: r
      | None => (k, v) :: (k', v') :: r
      end
  end.

(** A new property: in its place among the array indices, or last. *)
Definition prop_add {V} (o : Obj V) (k : string) (v : V) : Obj V :=
  match array_index k with
  | Some n => prop_add_index o n k v
  | None => (o ++ [(k, v)])%list
  end.

(** [{...o, [k]: v}] and [{ [k]: v }]: the property is defined on the object
    itself; an existing property keeps its place. *)
Definition prop_set {V} (o : Obj V) (k : string) (v : V) : Obj V :=
  if prop_owns o k then prop_replace o k v else prop_add o k v.

Section ExpressDynamodb.

(** JavaScript numbers are IEEE doubles; the facade only prints them
    ([`${start}`]) and asks for their [typeof], so the type is abstract. *)
Context {number : Type}.

(** ** Values *)

Inductive JsValue : Type :=
| JUndefined
| JNull
| JBoolean (b : bool)
| JNumber (n : number)
| JString (s : string)
| JArray (elems : list JsValue)
| JObject (props : list (string * JsValue))
| JFunction (name : string).

Definition JsObject : Type := Obj JsValue.

Inductive JsType :=
  TUndefined | TObject | TBoolean | TNumber | TString | TFunction.

Definition typeof (v : JsValue) : JsType :=
  match v with
  | JUndefined => TUndefined
  | JNull => TObject
  | JBoolean _ => TBoolean
  | JNumber _ => TNumber
  | JString _ => TString
  | JArray _ => TObject
  | JObject _ => TObject
  | JFunction _ => TFunction
  end.

Definition JsType_eqb (a b : JsType) : bool :=
  match a, b with
  | TUndefined, TUndefined | TObject, TObject | TBoolean, TBoolean
  | TNumber, TNumber | TString, TString | TFunction, TFunction => true
  | _, _ => false
  end.

(** The store's typed attribute representation.  The SDK types the payload
    of [S] as a string; the facade writes values of unknown type into it
    ([{ S: (item as never)?.[pk] }], [{ S: value }] with [value: any]), so
    the payload is a [JsValue] here. *)
Inductive AttributeValue : Type :=
| AttrS (payload : JsValue)
| AttrN (digits : string)
| AttrBOOL (b : bool)
| AttrNULL
| AttrL (elems : list AttributeValue)
| AttrM (props : list (string * AttributeValue)).

Definition AttrMap : Type := Obj AttributeValue.

Definition is_S (a : AttributeValue) : bool :=
  match a with AttrS _ => true | _ => false end.

(** ** The SDK boundary *)

(** [marshallOptions] of [@aws-sdk/util-dynamodb]; an absent field is
    [None]. *)
Record marshallOptions := {
  convertEmptyValues : option bool;
  removeUndefinedValues : option bool;
  convertClassInstanceToMap : option bool
}.

Record unmarshallOptions := { wrapNumbers : option bool }.

Record TranslateConfig := {
  tc_marshallOptions : marshallOptions;
  tc_unmarshallOptions : unmarshallOptions
}.

(** ** Client configuration ([dynamodb-client.ts]) *)

Record Credentials := {
  accessKeyId : option string;
  secretAccessKey : option string
}.

(** [new DynamoDBClient({ region, credentials })] *)
Record DynamoDBClient := {
  region : option string;
  credentials : option Credentials
}.

(** [DynamoDBDocumentClient.from(client, translateConfig)] keeps the client
    object it was given. *)
Record DynamoDBDocumentClient := {
  doc_client : DynamoDBClient;
  doc_translateConfig : TranslateConfig
}.

(** ** Commands *)

Record UpdateItemCommandInput := {
  u_TableName : string;
  u_Key : AttrMap;
  u_ReturnValues : option string;
  u_UpdateExpression : option string;
  u_ExpressionAttributeNames : option (Obj string);
  u_ExpressionAttributeValues : option AttrMap
}.

Record DeleteItemCommandInput := {
  d_TableName : string;
  d_Key : AttrMap
}.

(** [QueryCommand] of [@aws-sdk/lib-dynamodb]: native values in, native
    items out. *)
Record QueryCommandInput := {
  q_TableName : string;
  q_KeyConditionExpression : string;
  q_ExpressionAttributeValues : JsObject
}.

(** [ScanCommand] of [@aws-sdk/client-dynamodb]: attribute values in and
    out.  [Limit] is a count of items. *)
Record ScanCommandInput := {
  s_TableName : string;
  s_FilterExpression : option string;
  s_ExpressionAttributeNames : option (Obj string);
  s_ExpressionAttributeValues : option AttrMap;
  s_Limit : option nat;
  s_ExclusiveStartKey : option AttrMap
}.

Inductive Command : Type :=
| UpdateItemCommand (input : UpdateItemCommandInput)
| DeleteItemCommand (input : DeleteItemCommandInput)
| QueryCommand (input : QueryCommandInput)
| ScanCommand (input : ScanCommandInput).

Record UpdateItemCommandOutput := { u_Attributes : option AttrMap }.
Record DeleteItemCommandOutput := { d_Attributes : option AttrMap }.
Record QueryCommandOutput := { q_Items : option (list JsObject) }.
Record ScanCommandOutput := {
  s_Items : option (list AttrMap);
  s_LastEvaluatedKey : option AttrMap
}.

(** [send] is generic in the SDK: each command has its output type. *)
Definition OutputOf (c : Command) : Type :=
  match c with
  | UpdateItemCommand _ => UpdateItemCommandOutput
  | DeleteItemCommand _ => DeleteItemCommandOutput
  | QueryCommand _ => QueryCommandOutput
  | ScanCommand _ => ScanCommandOutput
  end.

(** ** The platform

    What the package takes from outside itself: the JavaScript runtime and
    the AWS SDK.  Of the runtime: the printing of numbers; which numbers are
    truthy; the printing of values that are not primitive; what a plain
    object inherits from [Object.prototype] under a name ([None]: nothing);
    and the inherited names whose assignment is taken by a setter, so that no
    own property is made ([__proto__]).  [marshall(data, options)] and
    [unmarshall(item)] may throw ([inl]).  [service] is the backing store
    behind the network as one client sees it: a request either fails or
    answers, and may change the store. *)
Class Platform := {
  number_to_string : number -> string;
  number_truthy : number -> bool;
  object_to_string : JsValue -> string;
  Object_prototype : string -> option JsValue;
  prototype_setter : string -> bool;
  SdkError : Type;
  marshall : JsObject -> option marshallOptions -> SdkError + AttrMap;
  unmarshall : AttrMap -> SdkError + JsObject;
  Store : Type;
  service :
    DynamoDBClient -> forall c : Command, Store -> (SdkError + OutputOf c) * Store
}.

Context {platform : Platform}.

(** ** Reading and writing properties *)

(** [o[k]] on a plain object of unknown values: the own property, else the
    inherited one, else [undefined]. *)
Definition js_get (o : JsObject) (k : string) : JsValue :=
  match prop_lookup o k with
  | Some v => v
  | None =>
      match Object_prototype k with
      | Some v => v
      | None => JUndefined
      end
  end.

(** [o[k] = v] on a plain object: an own property is overwritten; otherwise
    a setter of the prototype takes the value, or a new own property is
    made. *)
Definition prop_assign {V} (o : Obj V) (k : string) (v : V) : Obj V :=
  if prop_owns o k then prop_replace o k v
  else if prototype_setter k then o
  else prop_add o k v.

(** Truthiness. *)
Definition truthy (v : JsValue) : bool :=
  match v with
  | JUndefined => false
  | JNull => false
  | JBoolean b => b
  | JNumber n => number_truthy n
  | JString s => negb (String.eqb s EmptyString)
  | JArray _ => true
  | JObject _ => true
  | JFunction _ => true
  end.

(** [`${v}`] *)
Definition js_to_string (v : JsValue) : string :=
  match v with
  | JUndefined => "undefined"
  | JNull => "null"
  | JBoolean true => "true"
  | JBoolean false => "false"
  | JNumber n => number_to_string n
  | JString s => s
  | JArray _ => object_to_string v
  | JObject _ => object_to_string v
  | JFunction _ => object_to_string v
  end.

(** Thrown values: the facade's own [new Error(message)], or an error
    coming out of the SDK. *)
Inductive Thrown : Type :=
| JsError (message : string)
| SdkThrown (e : SdkError).

(** ** The world of a run *)

Record World := {
  DynamoDB_REGION : option string;        (* dynamodb-client.ts *)
  AWS_ACCESS_KEY_ID : option string;      (* dynamodb-client.ts, later revision *)
  AWS_SECRET_ACCESS_KEY : option string;  (* dynamodb-client.ts, later revision *)
  ddbClient : DynamoDBClient;             (* dynamodb-client.ts, [let] *)
  ddbDocClient : DynamoDBDocumentClient;  (* dynamodb-doc.ts, [const] *)
  store : Store;
  sent : list (DynamoDBClient * Command); (* requests issued, oldest first *)
  console : list Thrown                   (* console.log, oldest first *)
}.

Inductive Completion (A : Type) : Type :=
| Normal (a : A)
| Throw (e : Thrown).
#[local] Arguments Normal {A} a.
#[local] Arguments Throw {A} e.

Definition Async (A : Type) : Type := World -> Completion A * World.

Definition ret {A} (a : A) : Async A := fun w => (Normal a, w).

Definition throw {A} (e : Thrown) : Async A := fun w => (Throw e, w).

Definition bind {A B} (m : Async A) (k : A -> Async B) : Async B :=
  fun w =>
    match m w with
    | (Normal a, w') => k a w'
    | (Throw e, w') => (Throw e, w')
    end.

(** [try { body } catch (e) { handler e }] *)
Definition try_catch {A} (body : Async A) (handler : Thrown -> Async A) : Async A :=
  fun w =>
    match body w with
    | (Normal a, w') => (Normal a, w')
    | (Throw e, w') => handler e w'
    end.

(** A synchronous SDK call that may throw. *)
Definition lift_sdk {A} (r : SdkError + A) : Async A :=
  match r with
  | inl e => throw (SdkThrown e)
  | inr a => ret a
  end.

Definition log_console (e : Thrown) (w : World) : World :=
  {| DynamoDB_REGION := DynamoDB_REGION w;
     AWS_ACCESS_KEY_ID := AWS_ACCESS_KEY_ID w;
     AWS_SECRET_ACCESS_KEY := AWS_SECRET_ACCESS_KEY w;
     ddbClient := ddbClient w;
     ddbDocClient := ddbDocClient w;
     store := store w;
     sent := sent w;
     console := console w ++ [e] |}.

Definition log_request (client : DynamoDBClient) (c : Command) (st : Store)
  (w : World) : World :=
  {| DynamoDB_REGION := DynamoDB_REGION w;
     AWS_ACCESS_KEY_ID := AWS_ACCESS_KEY_ID w;
     AWS_SECRET_ACCESS_KEY := AWS_SECRET_ACCESS_KEY w;
     ddbClient := ddbClient w;
     ddbDocClient := ddbDocClient w;
     store := st;
     sent := sent w ++ [(client, c)];
     console := console w |}.

Definition console_log (e : Thrown) : Async unit :=
  fun w => (Normal tt, log_console e w).

(** [await ddbDocClient.send(command)]: the request goes out through the
    client the document client was built from. *)
Definition ddbDocClient_send (c : Command) : Async (OutputOf c) :=
  fun w =>
    let client := doc_client (ddbDocClient w) in
    let '(r, st) := service client c (store w) in
    match r with
    | inl e => (Throw (SdkThrown e), log_request client c st w)
    | inr out => (Normal out, log_request client c st w)
    end.

#[local] Notation "x <- m ;; k" := (bind m (fun x => k))
  (at level 61, m at next level, right associativity).

(** [arr.map(f)] where [f] may throw: the first throw ends the map. *)
Fixpoint map_throwing {A B} (f : A -> SdkError + B) (l : list A)
  : SdkError + list B :=
  match l with
  | [] => inr []
  | x :: r =>
      match f x with
      | inl e => inl e
      | inr y =>
          match map_throwing f r with
          | inl e => inl e
          | inr ys => inr (y :: ys)
          end
      end
  end.

(** ** The facade ([index.ts]) *)

(** [k !== sk] for an optional parameter [sk]. *)
Definition strict_neq (k : string) (sk : option string) : bool :=
  match sk with
  | Some s => negb (String.eqb k s)
  | None => true
  end.

(** Truthiness of an optional string: [undefined] and the empty string are
    falsy. *)
Definition truthy_string (sk : option string) : bool :=
  match sk with
  | Some s => negb (String.eqb s EmptyString)
  | None => false
  end.

Definition field_placeholder (index : nat) : string :=
  "#field" ++ index_to_string index.

Definition value_placeholder (index : nat) : string :=
  ":value" ++ index_to_string index.

Definition insertOrUpdate (tableName pk : string) (item : JsObject)
  (sk : option string) : Async UpdateItemCommandOutput :=
  let itemKeys :=
    filter (fun k => negb (String.eqb k pk) && strict_neq k sk) (Object_keys item) in
  if Nat.eqb (length itemKeys) (length (Object_keys item)) then
    throw (JsError "No partition key is found")
  else
    let params :=
      {| u_TableName := tableName;
         u_Key := [(pk, AttrS (js_get item pk))];
         u_ReturnValues := Some "ALL_NEW";
         u_UpdateExpression := None;
         u_ExpressionAttributeNames := None;
         u_ExpressionAttributeValues := None |} in
    params <-
      (if Nat.ltb 0 (length itemKeys) then
         let expression :=
           "SET " ++
           join ", "
             (mapi (fun (_ : string) index =>
                      field_placeholder index ++ " = " ++ value_placeholder index)
                   itemKeys) in
         let names :=
           reduce (fun accumulator k index =>
                     prop_set accumulator (field_placeholder index) k)
                  itemKeys [] in
         values <-
           lift_sdk
             (marshall
                (reduce (fun accumulator k index =>
                           prop_set accumulator (value_placeholder index) (js_get item k))
                        itemKeys [])
                (Some {| convertEmptyValues := None;
                         removeUndefinedValues := Some true;
                         convertClassInstanceToMap := None |})) ;;
         ret {| u_TableName := u_TableName params;
                u_Key := u_Key params;
                u_ReturnValues := u_ReturnValues params;
                u_UpdateExpression := Some expression;
                u_ExpressionAttributeNames := Some names;
                u_ExpressionAttributeValues := Some values |}
       else ret params) ;;
    let params :=
      match sk with
      | Some s =>
          if truthy_string sk then
            {| u_TableName := u_TableName params;
               u_Key := prop_assign (u_Key params) s (AttrS (js_get item s));
               u_ReturnValues := u_ReturnValues params;
               u_UpdateExpression := u_UpdateExpression params;
               u_ExpressionAttributeNames := u_ExpressionAttributeNames params;
               u_ExpressionAttributeValues := u_ExpressionAttributeValues params |}
          else params
      | None => params
      end in
    ddbDocClient_send (UpdateItemCommand params).

(** [pkValue] is declared [string]; types are erased at run time, so the
    parameter is any value. *)
Definition deleteOne (tableName pk : string) (pkValue : JsValue)
  : Async DeleteItemCommandOutput :=
  let params :=
    {| d_TableName := tableName;
       d_Key := [(pk, AttrS pkValue)] |} in
  ddbDocClient_send (DeleteItemCommand params).

(** [!data.Items || data.Items?.length < 1] *)
Definition no_items {A} (items : option (list A)) : bool :=
  match items with
  | None => true
  | Some l => Nat.ltb (length l) 1
  end.

Definition findOne (tableName pk : string) (pkValue : JsValue) : Async JsValue :=
  let params :=
    {| q_TableName := tableName;
       q_KeyConditionExpression := pk ++ " = :u";
       q_ExpressionAttributeValues := [(":u", pkValue)] |} in
  data <- ddbDocClient_send (QueryCommand params) ;;
  if no_items (q_Items data) then ret JNull
  else
    match q_Items data with
    | Some (first :: _) => ret (JObject first)
    | _ => ret JUndefined
    end.

Definition findMany (tableName pk : string) (pkValue : JsValue) : Async JsValue :=
  let params :=
    {| q_TableName := tableName;
       q_KeyConditionExpression := pk ++ " = :u";
       q_ExpressionAttributeValues := [(":u", pkValue)] |} in
  data <- ddbDocClient_send (QueryCommand params) ;;
  match q_Items data with
  | None => ret (JArray [])
  | Some l =>
      if Nat.eqb (length l) 0 then ret (JArray []) else ret (JArray (map JObject l))
  end.

(** The tail shared by the scans: an empty answer is [[]], otherwise
    [data.Items.map((item) => unmarshall(item))]. *)
Definition decode_items (items : option (list AttrMap)) : Async JsValue :=
  if no_items items then ret (JArray [])
  else
    match items with
    | Some l =>
        decoded <- lift_sdk (map_throwing unmarshall l) ;;
        ret (JArray (map JObject decoded))
    | None => ret (JArray [])
    end.

Definition findManyByField (tableName field : string) (value : JsValue)
  : Async JsValue :=
  let params :=
    {| s_TableName := tableName;
       s_FilterExpression := Some (field ++ " = :u");
       s_ExpressionAttributeNames := None;
       s_ExpressionAttributeValues := Some [(":u", AttrS value)];
       s_Limit := None;
       s_ExclusiveStartKey := None |} in
  data <- ddbDocClient_send (ScanCommand params) ;;
  decode_items (s_Items data).

Definition findManyPlain (tableName filterExpression : string)
  (expressionAttributeValues : AttrMap) : Async JsValue :=
  let params :=
    {| s_TableName := tableName;
       s_FilterExpression := Some filterExpression;
       s_ExpressionAttributeNames := None;
       s_ExpressionAttributeValues := Some expressionAttributeValues;
       s_Limit := None;
       s_ExclusiveStartKey := None |} in
  data <- ddbDocClient_send (ScanCommand params) ;;
  decode_items (s_Items data).

(** The five comparison operators the signature of [findOperated] admits. *)
Inductive Operator := OpLt | OpLe | OpEq | OpGe | OpGt.

Definition Operator_to_string (o : Operator) : string :=
  match o with
  | OpLt => "<"
  | OpLe => "<="
  | OpEq => "="
  | OpGe => ">="
  | OpGt => ">"
  end.

(** [operators[k]]: an operator of the map itself, or what the map inherits
    under that name. *)
Definition operator_entry (operators : Obj Operator) (k : string)
  : option (Operator + JsValue) :=
  match prop_lookup operators k with
  | Some o => Some (inl o)
  | None =>
      match Object_prototype k with
      | Some v => Some (inr v)
      | None => None
      end
  end.

(** [!operators[k]]: the operators are non-empty strings, hence truthy. *)
Definition no_operator (operators : Obj Operator) (k : string) : bool :=
  match operator_entry operators k with
  | Some (inl _) => false
  | Some (inr v) => negb (truthy v)
  | None => true
  end.

(** [`${operators[k]}`]; an absent entry prints as [undefined]. *)
Definition operator_text (operators : Obj Operator) (k : string) : string :=
  match operator_entry operators k with
  | Some (inl o) => Operator_to_string o
  | Some (inr v) => js_to_string v
  | None => "undefined"
  end.

(** The [for (const k of filterKeys)] loop: the first offending key throws. *)
Fixpoint check_filter (filter : JsObject) (operators : Obj Operator)
  (filterKeys : list string) : Async unit :=
  match filterKeys with
  | [] => ret tt
  | k :: rest =>
      if no_operator operators k then
        throw (JsError ("Operator for " ++ k ++ " not found"))
      else if negb (JsType_eqb (typeof (js_get filter k)) TString)
              && negb (JsType_eqb (typeof (js_get filter k)) TNumber)
      then throw (JsError ("Value for " ++ k ++ " is not a string or number"))
      else check_filter filter operators rest
  end.

Definition findOperated (tableName : string) (filter : JsObject)
  (operators : Obj Operator) : Async JsValue :=
  let filterKeys := Object_keys filter in
  _ <- check_filter filter operators filterKeys ;;
  values <-
    lift_sdk
      (marshall
         (reduce (fun accumulator k index =>
                    prop_set accumulator (value_placeholder index) (js_get filter k))
                 filterKeys [])
         None) ;;
  let params :=
    {| s_TableName := tableName;
       s_FilterExpression :=
         Some (join " and "
                 (mapi (fun k index =>
                          field_placeholder index ++ " " ++ operator_text operators k
                          ++ " " ++ value_placeholder index)
                       filterKeys));
       s_ExpressionAttributeNames :=
         Some (reduce (fun accumulator k index =>
                         prop_set accumulator (field_placeholder index) k)
                      filterKeys []);
       s_ExpressionAttributeValues := Some values;
       s_Limit := None;
       s_ExclusiveStartKey := None |} in
  data <- ddbDocClient_send (ScanCommand params) ;;
  decode_items (s_Items data).

Definition findWithin (tableName key : string) (start end_ : number)
  : Async JsValue :=
  let params :=
    {| s_TableName := tableName;
       s_FilterExpression := Some (key ++ " BETWEEN :start AND :end");
       s_ExpressionAttributeNames := None;
       s_ExpressionAttributeValues :=
         Some [(":start", AttrN (number_to_string start));
               (":end", AttrN (number_to_string end_))];
       s_Limit := None;
       s_ExclusiveStartKey := None |} in
  data <- ddbDocClient_send (ScanCommand params) ;;
  decode_items (s_Items data).

(** *** [findAll]: an asynchronous generator

    A generator object is the state in which its body is suspended: not yet
    started, suspended at one of the two [yield]s (with the locals [params]
    and [data]), or completed.  [next] runs the body up to the following
    [yield] or to its end. *)
Inductive Generator : Type :=
| GenStart (tableName : string) (limit : nat)
| GenYielded (params : ScanCommandInput) (data : ScanCommandOutput)
| GenCompleted.

(** [{ value, done: false }] or [{ value: undefined, done: true }] *)
Inductive IteratorResult : Type :=
| IterValue (value : list JsObject)
| IterDone.

(** [findAll(tableName, limit = 10)]: calling the generator function only
    creates the generator. *)
Definition findAll (tableName : string) (limit : option nat) : Generator :=
  GenStart tableName (match limit with Some l => l | None => 10 end).

(** The loop body: one scan, then a [yield]. *)
Definition scan_page (params : ScanCommandInput)
  : Async (IteratorResult * Generator) :=
  data <- ddbDocClient_send (ScanCommand params) ;;
  if no_items (s_Items data) then ret (IterValue [], GenYielded params data)
  else
    match s_Items data with
    | Some l =>
        items <- lift_sdk (map_throwing unmarshall l) ;;
        ret (IterValue items, GenYielded params data)
    | None => ret (IterValue [], GenYielded params data)
    end.

(** The body of the [try] from where the generator is suspended. *)
Definition resume (g : Generator) : Async (IteratorResult * Generator) :=
  match g with
  | GenStart tableName limit =>
      scan_page
        {| s_TableName := tableName;
           s_FilterExpression := None;
           s_ExpressionAttributeNames := None;
           s_ExpressionAttributeValues := None;
           s_Limit := Some limit;
           s_ExclusiveStartKey := None |}
  | GenYielded params data =>
      let params :=
        {| s_TableName := s_TableName params;
           s_FilterExpression := s_FilterExpression params;
           s_ExpressionAttributeNames := s_ExpressionAttributeNames params;
           s_ExpressionAttributeValues := s_ExpressionAttributeValues params;
           s_Limit := s_Limit params;
           s_ExclusiveStartKey := s_LastEvaluatedKey data |} in
      match s_ExclusiveStartKey params with
      | Some _ => scan_page params
      | None => ret (IterDone, GenCompleted)
      end
  | GenCompleted => ret (IterDone, GenCompleted)
  end.

(** [await iterator.next()] *)
Definition next (g : Generator) : Async (IteratorResult * Generator) :=
  match g with
  | GenCompleted => ret (IterDone, GenCompleted)
  | _ =>
      try_catch (resume g)
        (fun e => _ <- console_log e ;; ret (IterDone, GenCompleted))
  end.

(** The consumer loop of the README,
    [while ((res = await iterator.next()) && !res.done)], for at most [fuel]
    turns: the batches received, and whether the generator said [done]. *)
Fixpoint consume (fuel : nat) (g : Generator) : Async (list (list JsObject) * bool) :=
  match fuel with
  | 0 => ret ([], false)
  | S fuel' =>
      r <- next g ;;
      match r with
      | (IterDone, _) => ret ([], true)
      | (IterValue batch, g') =>
          rest <- consume fuel' g' ;;
          ret (batch :: fst rest, snd rest)
      end
  end.

(** ** Module state ([dynamodb-client.ts], [dynamodb-doc.ts]) *)

Definition translateConfig : TranslateConfig :=
  {| tc_marshallOptions :=
       {| convertEmptyValues := Some false;
          removeUndefinedValues := Some false;
          convertClassInstanceToMap := Some false |};
     tc_unmarshallOptions := {| wrapNumbers := Some false |} |}.

(** Loading the modules: [ddbClient] is built from the environment, and
    [ddbDocClient] is built from that [ddbClient]. *)
Definition load_modules (env_REGION env_AWS_ACCESS_KEY_ID
  env_AWS_SECRET_ACCESS_KEY : option string) (st : Store) : World :=
  let client := {| region := env_REGION; credentials := None |} in
  {| DynamoDB_REGION := env_REGION;
     AWS_ACCESS_KEY_ID := env_AWS_ACCESS_KEY_ID;
     AWS_SECRET_ACCESS_KEY := env_AWS_SECRET_ACCESS_KEY;
     ddbClient := client;
     ddbDocClient := {| doc_client := client; doc_translateConfig := translateConfig |};
     store := st;
     sent := [];
     console := [] |}.

(** The assignments to the module variables of [dynamodb-client.ts]. *)
Definition assign_client (reg : option string) (keys : option Credentials)
  (client : DynamoDBClient) (w : World) : World :=
  {| DynamoDB_REGION := reg;
     AWS_ACCESS_KEY_ID :=
       match keys with Some k => accessKeyId k | None => AWS_ACCESS_KEY_ID w end;
     AWS_SECRET_ACCESS_KEY :=
       match keys with Some k => secretAccessKey k | None => AWS_SECRET_ACCESS_KEY w end;
     ddbClient := client;
     ddbDocClient := ddbDocClient w;
     store := store w;
     sent := sent w;
     console := console w |}.

(** [setRegion] of [src/dynamodb-client.ts]. *)
Definition setRegion (r : string) (w : World) : World :=
  assign_client (DynamoDB_REGION w) None
    {| region := Some r; credentials := None |} w.

(** The setters of the revision of [dynamodb-client.ts] that keeps the
    credentials in module variables. *)
Definition setRegion_with_keys (r : string) (w : World) : World :=
  assign_client (Some r) None
    {| region := Some r;
       credentials :=
         Some {| accessKeyId := AWS_ACCESS_KEY_ID w;
                 secretAccessKey := AWS_SECRET_ACCESS_KEY w |} |} w.

Definition setAccessKey (accessKey : Credentials) (w : World) : World :=
  assign_client (DynamoDB_REGION w) (Some accessKey)
    {| region := DynamoDB_REGION w;
       credentials :=
         Some {| accessKeyId := accessKeyId accessKey;
                 secretAccessKey := secretAccessKey accessKey |} |} w.

Definition setConfig (accessKey : Credentials) (r : option string) (w : World)
  : World :=
  let reg := match r with Some x => Some x | None => DynamoDB_REGION w end in
  assign_client reg None {| region := reg; credentials := Some accessKey |} w.

(** ** Runs: configuration calls and facade operations in sequence *)

Inductive Call : Type :=
| CallSetRegion (r : string)
| CallSetRegionWithKeys (r : string)
| CallSetAccessKey (accessKey : Credentials)
| CallSetConfig (accessKey : Credentials) (r : option string)
| CallInsertOrUpdate (tableName pk : string) (item : JsObject) (sk : option string)
| CallDeleteOne (tableName pk : string) (pkValue : JsValue)
| CallFindOne (tableName pk : string) (pkValue : JsValue)
| CallFindMany (tableName pk : string) (pkValue : JsValue)
| CallFindManyByField (tableName field : string) (value : JsValue)
| CallFindManyPlain (tableName filterExpression : string) (values : AttrMap)
| CallFindOperated (tableName : string) (filter : JsObject) (operators : Obj Operator)
| CallFindWithin (tableName key : string) (start end_ : number)
| CallNext (g : Generator).

(** The world after one call, whatever it returned or threw. *)
Definition perform (c : Call) (w : World) : World :=
  match c with
  | CallSetRegion r => setRegion r w
  | CallSetRegionWithKeys r => setRegion_with_keys r w
  | CallSetAccessKey k => setAccessKey k w
  | CallSetConfig k r => setConfig k r w
  | CallInsertOrUpdate t pk item sk => snd (insertOrUpdate t pk item sk w)
  | CallDeleteOne t pk v => snd (deleteOne t pk v w)
  | CallFindOne t pk v => snd (findOne t pk v w)
  | CallFindMany t pk v => snd (findMany t pk v w)
  | CallFindManyByField t f v => snd (findManyByField t f v w)
  | CallFindManyPlain t e vs => snd (findManyPlain t e vs w)
  | CallFindOperated t f ops => snd (findOperated t f ops w)
  | CallFindWithin t k a b => snd (findWithin t k a b w)
  | CallNext g => snd (next g w)
  end.

Definition run (calls : list Call) (w : World) : World :=
  fold_left (fun w c => perform c w) calls w.

(** ** Observations on a call *)

(** The requests a computation issues from a world: what it adds to the log. *)
Definition issued {A} (m : Async A) (w : World) : list (DynamoDBClient * Command) :=
  skipn (length (sent w)) (sent (snd (m w))).

(** The client every request of the facade goes through. *)
Definition sending_client (w : World) : DynamoDBClient :=
  doc_client (ddbDocClient w).

(** The test of the filter that computes [itemKeys]. *)
Definition kept (pk : string) (sk : option string) (k : string) : bool :=
  negb (String.eqb k pk) && strict_neq k sk.

(** [k] is one of the key fields named by the caller. *)
Definition key_field (pk : string) (sk : option string) (k : string) : Prop :=
  k = pk \/ sk = Some k.

Definition has_key_field (pk : string) (sk : option string) (item : JsObject) : Prop :=
  exists k, In k (Object_keys item) /\ key_field pk sk k.

Definition only_key_fields (pk : string) (sk : option string) (item : JsObject) : Prop :=
  forall k, In k (Object_keys item) -> key_field pk sk k.

(** The fields of [item] are the partition key and, if given, the sort key,
    and nothing else. *)
Definition exactly_key_fields (pk : string) (sk : option string) (item : JsObject)
  : Prop :=
  In pk (Object_keys item)
  /\ (forall s, sk = Some s -> In s (Object_keys item))
  /\ only_key_fields pk sk item.

(** The [Key] that [insertOrUpdate] builds. *)
Definition upsert_key (pk : string) (sk : option string) (item : JsObject) : AttrMap :=
  match sk with
  | Some s =>
      if truthy_string sk
      then prop_assign [(pk, AttrS (js_get item pk))] s (AttrS (js_get item s))
      else [(pk, AttrS (js_get item pk))]
  | None => [(pk, AttrS (js_get item pk))]
  end.

(** An answer without items: [Items] absent or empty. *)
Definition empty_result {A} (items : option (list A)) : Prop :=
  items = None \/ items = Some [].

(** A key of the value map that [findOperated] must reject: no operator
    for it, or a value that is neither a string nor a number. *)
Definition offending (filter : JsObject) (operators : Obj Operator) (k : string)
  : Prop :=
  prop_lookup operators k = None
  \/ (typeof (js_get filter k) <> TString /\ typeof (js_get filter k) <> TNumber).

(** A key of the value map that [findOperated] does reject: the operator
    map has nothing truthy under it, own or inherited, or its value is
    neither a string nor a number. *)
Definition unaccepted (filter : JsObject) (operators : Obj Operator) (k : string)
  : Prop :=
  no_operator operators k = true
  \/ (typeof (js_get filter k) <> TString /\ typeof (js_get filter k) <> TNumber).

(** The store answers the query or scan [c] of world [w] with an empty
    result set. *)
Definition answer_is_empty (c : Command) (w : World) : Prop :=
  match c as c0 return (SdkError + OutputOf c0 -> Prop) with
  | QueryCommand _ => fun r => exists out, r = inr out /\ empty_result (q_Items out)
  | ScanCommand _ => fun r => exists out, r = inr out /\ empty_result (s_Items out)
  | _ => fun _ => False
  end (fst (service (sending_client w) c (store w))).

(** The call [m] issues one request, a query or scan whose result set is
    empty. *)
Definition empty_answered {A} (m : Async A) (w : World) : Prop :=
  exists c, issued m w = [(sending_client w, c)] /\ answer_is_empty c w.

(** The query of [findOne] and [findMany]. *)
Definition findOne_query (tableName pk : string) (pkValue : JsValue) : Command :=
  QueryCommand
    {| q_TableName := tableName;
       q_KeyConditionExpression := pk ++ " = :u";
       q_ExpressionAttributeValues := [(":u", pkValue)] |}.

(** The parameters of the scan of [findWithin]. *)
Definition findWithin_scan (tableName key : string) (start end_ : number)
  : ScanCommandInput :=
  {| s_TableName := tableName;
     s_FilterExpression := Some (key ++ " BETWEEN :start AND :end");
     s_ExpressionAttributeNames := None;
     s_ExpressionAttributeValues :=
       Some [(":start", AttrN (number_to_string start));
             (":end", AttrN (number_to_string end_))];
     s_Limit := None;
     s_ExclusiveStartKey := None |}.

(** The batch size a call [findAll(tableName, limit)] asks for. *)
Definition batch_size (limit : option nat) : nat :=
  match limit with Some l => l | None => 10 end.

(** [g] is a state of a generator made by [findAll] for table [t] and batch
    size [l]. *)
Definition generator_of (t : string) (l : nat) (g : Generator) : Prop :=
  match g with
  | GenStart t' l' => t' = t /\ l' = l
  | GenYielded params _ => s_TableName params = t /\ s_Limit params = Some l
  | GenCompleted => True
  end.

(** A request is a scan of table [t] with [Limit] [l]. *)
Definition scan_with_limit (t : string) (l : nat) (r : DynamoDBClient * Command)
  : Prop :=
  exists p, snd r = ScanCommand p /\ s_TableName p = t /\ s_Limit p = Some l.

(** The store never answers a scan with more items than its [Limit]. *)
Definition honours_limit : Prop :=
  forall client p st out st' items n,
    service client (ScanCommand p) st = (inr out, st') ->
    s_Items out = Some items ->
    s_Limit p = Some n ->
    length items <= n.

(** [params] with [ExclusiveStartKey] set to [k]. *)
Definition continue_from (params : ScanCommandInput) (k : AttrMap) : ScanCommandInput :=
  {| s_TableName := s_TableName params;
     s_FilterExpression := s_FilterExpression params;
     s_ExpressionAttributeNames := s_ExpressionAttributeNames params;
     s_ExpressionAttributeValues := s_ExpressionAttributeValues params;
     s_Limit := s_Limit params;
     s_ExclusiveStartKey := Some k |}.

(** From [w] to [w'] the document client is the same object and every
    request added to the log went out through its client. *)
Definition same_client_step (w w' : World) : Prop :=
  ddbDocClient w' = ddbDocClient w
  /\ exists reqs,
       sent w' = (sent w ++ reqs)%list
       /\ Forall (fun r => fst r = sending_client w) reqs.

(** The scan that [next] is about to issue, if any. *)
Definition next_request (g : Generator) : option ScanCommandInput :=
  match g with
  | GenStart tableName limit =>
      Some {| s_TableName := tableName;
              s_FilterExpression := None;
              s_ExpressionAttributeNames := None;
              s_ExpressionAttributeValues := None;
              s_Limit := Some limit;
              s_ExclusiveStartKey := None |}
  | GenYielded params data =>
      match s_LastEvaluatedKey data with
      | Some k =>
          Some {| s_TableName := s_TableName params;
                  s_FilterExpression := s_FilterExpression params;
                  s_ExpressionAttributeNames := s_ExpressionAttributeNames params;
                  s_ExpressionAttributeValues := s_ExpressionAttributeValues params;
                  s_Limit := s_Limit params;
                  s_ExclusiveStartKey := Some k |}
      | None => None
      end
  | GenCompleted => None
  end.

(** The call [m] issues one request, and the store fails it with [e]. *)
Definition request_failed {A} (m : Async A) (w : World) (e : SdkError) : Prop :=
  exists c,
    issued m w = [(sending_client w, c)]
    /\ fst (service (sending_client w) c (store w)) = inl e.

(** The non-key fields of [item], in property order: [itemKeys]. *)
Definition non_key_fields (pk : string) (sk : option string) (item : JsObject)
  : list string :=
  filter (kept pk sk) (Object_keys item).

(** [items] decode up to [bad], on which [unmarshall] throws [e]. *)
Definition decoding_fails (items : list AttrMap) (e : SdkError) : Prop :=
  exists pre bad post,
    items = (pre ++ bad :: post)%list
    /\ Forall (fun raw => exists obj, unmarshall raw = inr obj) pre
    /\ unmarshall bad = inl e.

(** [c] is a call to one of the setters of [dynamodb-client.ts]. *)
Definition is_setter (c : Call) : bool :=
  match c with
  | CallSetRegion _ | CallSetRegionWithKeys _ | CallSetAccessKey _
  | CallSetConfig _ _ => true
  | _ => false
  end.

(** [c] is a turn of a generator of [findAll]. *)
Definition is_turn (c : Call) : bool :=
  match c with
  | CallNext _ => true
  | _ => false
  end.

End ExpressDynamodb.

Arguments Normal {number platform A} a.
Arguments Throw {number platform A} e.

Notation "x <- m ;; k" := (bind m (fun x => k))
  (at level 61, m at next level, right associativity).

(** ** A small platform to run the facade on

    Numbers are integers printed in decimal; [marshall] and [unmarshall]
    convert flat objects of scalars the way [@aws-sdk/util-dynamodb] does and
    refuse anything else; the store answers every query with the items it
    holds and the scans from a script, one entry per scan. *)
Module Demo.

Definition print (z : Z) : string := NilZero.string_of_int (Z.to_int z).

(** [Object.prototype] as the runtime ships it: built-in functions, and
    [__proto__], which reads as [Object.prototype] itself (an object without
    enumerable properties) and whose assignment sets the prototype. *)
Definition standard_prototype (k : string) : option (JsValue (number := Z)) :=
  if String.eqb k "__proto__" then Some (JObject [])
  else if String.eqb k "constructor" then Some (JFunction "Object")
  else if existsb (String.eqb k)
            ["__defineGetter__"; "__defineSetter__"; "hasOwnProperty";
             "__lookupGetter__"; "__lookupSetter__"; "isPrototypeOf";
             "propertyIsEnumerable"; "toString"; "valueOf"; "toLocaleString"]
       then Some (JFunction k)
       else None.

Definition standard_setter (k : string) : bool := String.eqb k "__proto__".

Definition print_object (v : JsValue (number := Z)) : string :=
  match v with
  | JFunction name => "function " ++ name ++ "() { [native code] }"
  | _ => "[object Object]"
  end.

Definition nonzero (z : Z) : bool := negb (Z.eqb z 0).

Definition convertToAttr (v : JsValue (number := Z)) : string + AttributeValue (number := Z) :=
  match v with
  | JNull => inr AttrNULL
  | JBoolean b => inr (AttrBOOL b)
  | JNumber n => inr (AttrN (print n))
  | JString s => inr (AttrS (JString s))
  | JUndefined => inl "Pass options.removeUndefinedValues=true to remove undefined values"
  | JArray _ | JObject _ => inl "nested values are not converted here"
  | JFunction _ => inl "Unsupported type passed: function"
  end.

Definition removes_undefined (options : option marshallOptions) : bool :=
  match options with
  | Some o => match removeUndefinedValues o with Some b => b | None => false end
  | None => false
  end.

Fixpoint marshall_flat (data : JsObject (number := Z)) (options : option marshallOptions)
  : string + AttrMap (number := Z) :=
  match data with
  | [] => inr []
  | (k, JUndefined) :: rest =>
      if removes_undefined options then marshall_flat rest options
      else inl "Pass options.removeUndefinedValues=true to remove undefined values"
  | (k, v) :: rest =>
      match convertToAttr v with
      | inl e => inl e
      | inr a =>
          match marshall_flat rest options with
          | inl e => inl e
          | inr m => inr ((k, a) :: m)
          end
      end
  end.

Definition convertToNative (a : AttributeValue (number := Z)) : string + JsValue (number := Z) :=
  match a with
  | AttrS v => inr v
  | AttrN digits =>
      match NilZero.int_of_string digits with
      | Some i => inr (JNumber (Z.of_int i))
      | None => inl "not a number"
      end
  | AttrBOOL b => inr (JBoolean b)
  | AttrNULL => inr JNull
  | AttrL _ | AttrM _ => inl "nested values are not converted here"
  end.

Fixpoint unmarshall_flat (item : AttrMap (number := Z)) : string + JsObject (number := Z) :=
  match item with
  | [] => inr []
  | (k, a) :: rest =>
      match convertToNative a with
      | inl e => inl e
      | inr v =>
          match unmarshall_flat rest with
          | inl e => inl e
          | inr o => inr ((k, v) :: o)
          end
      end
  end.

Record ScriptedStore := {
  held : option (list (JsObject (number := Z)));
  script : list (string + ScanCommandOutput (number := Z))
}.

(** A scripted answer, cut to the [Limit] of the scan. *)
Definition within_limit (limit : option nat)
  (answer : string + ScanCommandOutput (number := Z))
  : string + ScanCommandOutput (number := Z) :=
  match answer, limit with
  | inr out, Some n =>
      inr {| s_Items := option_map (firstn n) (s_Items out);
             s_LastEvaluatedKey := s_LastEvaluatedKey out |}
  | _, _ => answer
  end.

Definition scripted_service (client : DynamoDBClient) (c : Command (number := Z))
  (st : ScriptedStore) : (string + OutputOf c) * ScriptedStore :=
  match c as c0 return ((string + OutputOf c0) * ScriptedStore) with
  | UpdateItemCommand _ => (inr {| u_Attributes := None |}, st)
  | DeleteItemCommand _ => (inr {| d_Attributes := None |}, st)
  | QueryCommand _ => (inr {| q_Items := held st |}, st)
  | ScanCommand p =>
      match script st with
      | [] => (inr {| s_Items := None; s_LastEvaluatedKey := None |}, st)
      | answer :: rest =>
          (within_limit (s_Limit p) answer, {| held := held st; script := rest |})
      end
  end.

#[export] Instance platform : Platform (number := Z) := {|
  number_to_string := print;
  number_truthy := nonzero;
  object_to_string := print_object;
  Object_prototype := standard_prototype;
  prototype_setter := standard_setter;
  SdkError := string;
  marshall := marshall_flat;
  unmarshall := unmarshall_flat;
  Store := ScriptedStore;
  service := scripted_service
|}.

(** The world after loading the modules with [REGION=eu-west-1]. *)
Definition world (st : ScriptedStore) : World :=
  load_modules (Some "eu-west-1") None None st.

Definition empty_store : ScriptedStore := {| held := None; script := [] |}.

Definition client0 : DynamoDBClient :=
  {| region := Some "eu-west-1"; credentials := None |}.

Definition only_true : option marshallOptions :=
  Some {| convertEmptyValues := None;
          removeUndefinedValues := Some true;
          convertClassInstanceToMap := None |}.

(** Items and stores of the examples. *)
Definition key_only_item : JsObject (number := Z) := [("id", JString "1")].

Definition name_only_item : JsObject (number := Z) := [("name", JString "a")].

Definition id_name_item : JsObject (number := Z) :=
  [("id", JString "1"); ("name", JString "a")].

Definition id_ts_item : JsObject (number := Z) :=
  [("id", JString "1"); ("ts", JNumber 5%Z)].

Definition age_filter : JsObject (number := Z) := [("age", JNumber 3%Z)].

Definition tags_filter : JsObject (number := Z) := [("tags", JObject [])].

Definition raw_seven : AttrMap (number := Z) := [("id", AttrN "7")].

Definition seven : JsObject (number := Z) := [("id", JNumber 7%Z)].

Definition holding : ScriptedStore :=
  {| held := Some [seven; key_only_item]; script := [] |}.

Definition one_page : ScriptedStore :=
  {| held := None;
     script := [inr {| s_Items := Some [raw_seven]; s_LastEvaluatedKey := None |}] |}.

Definition failing : ScriptedStore :=
  {| held := None; script := [inl "throttled"] |}.

(** A first page with a continuation token, then a failure. *)
Definition page_then_failure : ScriptedStore :=
  {| held := None;
     script := [inr {| s_Items := Some [raw_seven];
                       s_LastEvaluatedKey := Some raw_seven |};
                inl "throttled"] |}.

(** Two pages, the second without continuation token. *)
Definition two_pages : ScriptedStore :=
  {| held := None;
     script := [inr {| s_Items := Some [raw_seven; raw_seven; raw_seven];
                       s_LastEvaluatedKey := Some raw_seven |};
                inr {| s_Items := Some [raw_seven];
                       s_LastEvaluatedKey := None |}] |}.

Definition first_scan (tableName : string) (limit : nat)
  : ScanCommandInput (number := Z) :=
  {| s_TableName := tableName;
     s_FilterExpression := None;
     s_ExpressionAttributeNames := None;
     s_ExpressionAttributeValues := None;
     s_Limit := Some limit;
     s_ExclusiveStartKey := None |}.

(** *** More platforms and data for the examples *)

(** [marshall] as above, refusing also the integers beyond
    [Number.MAX_SAFE_INTEGER], as [@aws-sdk/util-dynamodb] does. *)
Definition convertToAttr_safe (v : JsValue (number := Z))
  : string + AttributeValue (number := Z) :=
  match v with
  | JNumber n =>
      if Z.ltb 9007199254740991 n
      then inl "Number is greater than Number.MAX_SAFE_INTEGER. Use BigInt."
      else convertToAttr v
  | _ => convertToAttr v
  end.

Fixpoint marshall_safe (data : JsObject (number := Z)) (options : option marshallOptions)
  : string + AttrMap (number := Z) :=
  match data with
  | [] => inr []
  | (k, JUndefined) :: rest =>
      if removes_undefined options then marshall_safe rest options
      else inl "Pass options.removeUndefinedValues=true to remove undefined values"
  | (k, v) :: rest =>
      match convertToAttr_safe v with
      | inl e => inl e
      | inr a =>
          match marshall_safe rest options with
          | inl e => inl e
          | inr m => inr ((k, a) :: m)
          end
      end
  end.

Definition safe_platform : Platform (number := Z) := {|
  number_to_string := print;
  number_truthy := nonzero;
  object_to_string := print_object;
  Object_prototype := standard_prototype;
  prototype_setter := standard_setter;
  SdkError := string;
  marshall := marshall_safe;
  unmarshall := unmarshall_flat;
  Store := ScriptedStore;
  service := scripted_service
|}.

Definition safe_world : World (platform := safe_platform) :=
  load_modules (platform := safe_platform) (Some "eu-west-1") None None empty_store.

(** A store that cannot be reached: every request fails. *)
Definition offline_platform : Platform (number := Z) := {|
  number_to_string := print;
  number_truthy := nonzero;
  object_to_string := print_object;
  Object_prototype := standard_prototype;
  prototype_setter := standard_setter;
  SdkError := string;
  marshall := marshall_flat;
  unmarshall := unmarshall_flat;
  Store := unit;
  service := fun _ c st => (inl "offline", st)
|}.

Definition offline_world : World (platform := offline_platform) :=
  load_modules (platform := offline_platform) (Some "eu-west-1") None None tt.

Definition id_name_age_item : JsObject (number := Z) :=
  [("id", JString "1"); ("name", JString "a"); ("age", JNumber 3%Z)].

Definition ts_name_item : JsObject (number := Z) :=
  [("ts", JNumber 5%Z); ("name", JString "a")].

Definition big_item : JsObject (number := Z) :=
  [("id", JString "1"); ("n", JNumber 9007199254740993%Z)].

Definition big_filter : JsObject (number := Z) :=
  [("n", JNumber 9007199254740993%Z)].

Definition age_name_filter : JsObject (number := Z) :=
  [("age", JNumber 3%Z); ("name", JString "x")].

Definition age_name_operators : Obj Operator :=
  [("age", OpGt); ("name", OpEq)].

Definition raw_broken : AttrMap (number := Z) := [("id", AttrN "x")].

(** A page whose second item does not decode, with a continuation token. *)
Definition undecodable_page : ScanCommandOutput (number := Z) :=
  {| s_Items := Some [raw_seven; raw_broken; raw_seven];
     s_LastEvaluatedKey := Some raw_seven |}.

Definition undecodable : ScriptedStore :=
  {| held := None; script := [inr undecodable_page] |}.

(** A page without items, with a continuation token. *)
Definition empty_page : ScanCommandOutput (number := Z) :=
  {| s_Items := Some []; s_LastEvaluatedKey := Some raw_seven |}.

Definition empty_then_more : ScriptedStore :=
  {| held := None; script := [inr empty_page] |}.

Definition plain_scan (tableName filterExpression : string)
  (values : AttrMap (number := Z)) : ScanCommandInput (number := Z) :=
  {| s_TableName := tableName;
     s_FilterExpression := Some filterExpression;
     s_ExpressionAttributeNames := None;
     s_ExpressionAttributeValues := Some values;
     s_Limit := None;
     s_ExclusiveStartKey := None |}.

Definition id_name_age_update : DynamoDBClient * Command (number := Z) :=
  (client0,
   UpdateItemCommand
     {| u_TableName := "T";
        u_Key := [("id", AttrS (JString "1"))];
        u_ReturnValues := Some "ALL_NEW";
        u_UpdateExpression := Some "SET #field0 = :value0, #field1 = :value1";
        u_ExpressionAttributeNames := Some [("#field0", "name"); ("#field1", "age")];
        u_ExpressionAttributeValues :=
          Some [(":value0", AttrS (JString "a")); (":value1", AttrN "3")] |}).

Definition ts_name_update : DynamoDBClient * Command (number := Z) :=
  (client0,
   UpdateItemCommand
     {| u_TableName := "T";
        u_Key := [("id", AttrS JUndefined); ("ts", AttrS (JNumber 5%Z))];
        u_ReturnValues := Some "ALL_NEW";
        u_UpdateExpression := Some "SET #field0 = :value0";
        u_ExpressionAttributeNames := Some [("#field0", "name")];
        u_ExpressionAttributeValues := Some [(":value0", AttrS (JString "a"))] |}).

Definition offline_rejection {A} : Completion (platform := offline_platform) A :=
  Throw (platform := offline_platform) (SdkThrown (platform := offline_platform) "offline").

Definition offline_failed {A} (m : Async (platform := offline_platform) A) : Prop :=
  request_failed (platform := offline_platform) m offline_world "offline".

Definition undecodable_world : World := world undecodable.

Definition constructor_filter : JsObject (number := Z) := [("constructor", JNumber 3%Z)].

Definition proto_item : JsObject (number := Z) :=
  [("__proto__", JString "x"); ("name", JString "a")].

End Demo.

(** * Properties *)

Section Properties.

Context {number : Type} {platform : Platform (number := number)}.

#[local] Open Scope list_scope.

#[local] Abbreviation JsValue := (JsValue (number := number)).
#[local] Abbreviation JsObject := (JsObject (number := number)).
#[local] Abbreviation AttributeValue := (AttributeValue (number := number)).
#[local] Abbreviation AttrMap := (AttrMap (number := number)).
#[local] Abbreviation Command := (Command (number := number)).
#[local] Abbreviation ScanCommandInput := (ScanCommandInput (number := number)).
#[local] Abbreviation ScanCommandOutput := (ScanCommandOutput (number := number)).
#[local] Abbreviation QueryCommandOutput := (QueryCommandOutput (number := number)).
#[local] Abbreviation Generator := (Generator (number := number)).
#[local] Abbreviation Call := (Call (number := number)).
#[local] Abbreviation findAll := (findAll (number := number)).

(** ** The request log *)

Lemma skipn_length_app {A} (l r : list A) : skipn (length l) (l ++ r) = r.
Proof.
  induction l as [|x l IH]; simpl; [reflexivity | exact IH].
Qed.

Lemma issued_unchanged {A} (m : Async A) (w : World) :
  snd (m w) = w -> issued m w = [].
Proof.
  intros E. unfold issued. rewrite E. apply skipn_all.
Qed.

Lemma send_world (c : Command) (w : World) :
  exists r st,
    service (sending_client w) c (store w) = (r, st)
    /\ snd (ddbDocClient_send c w) = log_request (sending_client w) c st w.
Proof.
  unfold ddbDocClient_send, sending_client.
  destruct (service (doc_client (ddbDocClient w)) c (store w)) as [r st].
  exists r, st. split; [reflexivity|]. destruct r; reflexivity.
Qed.

Lemma send_sent (c : Command) (w : World) :
  sent (snd (ddbDocClient_send c w)) = sent w ++ [(sending_client w, c)].
Proof.
  destruct (send_world c w) as (r & st & _ & E). rewrite E. reflexivity.
Qed.

Lemma issued_send (c : Command) (w : World) :
  issued (ddbDocClient_send c) w = [(sending_client w, c)].
Proof.
  unfold issued. rewrite send_sent. apply skipn_length_app.
Qed.

(** A computation that ends in the world of one send issued that request. *)
Lemma issued_via_send {A} (m : Async A) (w : World) (c : Command) :
  snd (m w) = snd (ddbDocClient_send c w) ->
  issued m w = [(sending_client w, c)].
Proof.
  intros E. rewrite <- (issued_send c w). unfold issued. now rewrite E.
Qed.

Lemma send_ok (c : Command) (w : World) out st :
  service (sending_client w) c (store w) = (inr out, st) ->
  ddbDocClient_send c w = (Normal out, log_request (sending_client w) c st w).
Proof.
  intros E. unfold ddbDocClient_send. fold (sending_client w). rewrite E. reflexivity.
Qed.

Lemma send_fails (c : Command) (w : World) e st :
  service (sending_client w) c (store w) = (inl e, st) ->
  ddbDocClient_send c w
  = (Throw (SdkThrown e), log_request (sending_client w) c st w).
Proof.
  intros E. unfold ddbDocClient_send. fold (sending_client w). rewrite E. reflexivity.
Qed.

(** A send never throws one of the facade's own errors. *)
Lemma send_not_JsError (c : Command) (w w' : World) msg :
  ddbDocClient_send c w <> (Throw (JsError msg), w').
Proof.
  unfold ddbDocClient_send.
  destruct (service (doc_client (ddbDocClient w)) c (store w)) as [[e|out] st];
    intros H; inversion H.
Qed.

(** Closes a goal from [E : ddbDocClient_send c w = (Throw (JsError _), _)]. *)
Ltac send_absurd E :=
  match type of E with
  | ddbDocClient_send ?c ?w = (_, ?w') =>
      exfalso; exact (send_not_JsError c w w' _ E)
  end.

(** ** The key test of [insertOrUpdate] *)

Lemma kept_false_iff pk sk k : kept pk sk k = false <-> key_field pk sk k.
Proof.
  unfold kept, key_field, strict_neq. split.
  - intros H. apply andb_false_iff in H. destruct H as [H|H].
    + left. apply negb_false_iff in H. now apply String.eqb_eq.
    + destruct sk as [s|]; [|discriminate].
      right. apply negb_false_iff in H. apply String.eqb_eq in H. now subst.
  - intros [ -> | -> ].
    + now rewrite String.eqb_refl.
    + rewrite String.eqb_refl. simpl. apply andb_false_r.
Qed.

Lemma filter_length_le' {A} (f : A -> bool) (l : list A) :
  length (filter f l) <= length l.
Proof.
  induction l as [|x l IH]; simpl; [lia|]. destruct (f x); simpl; lia.
Qed.

Lemma filter_all_iff {A} (f : A -> bool) (l : list A) :
  length (filter f l) = length l <-> (forall x, In x l -> f x = true).
Proof.
  induction l as [|x l IH]; simpl.
  - split; [intros _ y [] | reflexivity].
  - destruct (f x) eqn:E; simpl.
    + split.
      * intros H y [<-|Hy]; [exact E|]. apply IH; [lia | exact Hy].
      * intros H. f_equal. apply IH. intros y Hy. apply H. now right.
    + split.
      * intros H. pose proof (filter_length_le' f l). lia.
      * intros H. specialize (H x (or_introl eq_refl)). congruence.
Qed.

Lemma filter_none_iff {A} (f : A -> bool) (l : list A) :
  filter f l = [] <-> (forall x, In x l -> f x = false).
Proof.
  induction l as [|x l IH]; simpl.
  - split; [intros _ y [] | reflexivity].
  - destruct (f x) eqn:E.
    + split; [discriminate|]. intros H. specialize (H x (or_introl eq_refl)). congruence.
    + rewrite IH. split.
      * intros H y [<-|Hy]; [exact E | now apply H].
      * intros H y Hy. apply H. now right.
Qed.

Lemma no_key_iff pk sk (item : JsObject) :
  length (filter (kept pk sk) (Object_keys item)) = length (Object_keys item)
  <-> ~ has_key_field pk sk item.
Proof.
  rewrite filter_all_iff. unfold has_key_field. split.
  - intros H (k & Hk & Hkey). apply kept_false_iff in Hkey.
    rewrite (H k Hk) in Hkey. discriminate.
  - intros H k Hk. destruct (kept pk sk k) eqn:E; [reflexivity|].
    exfalso. apply H. exists k. split; [exact Hk|]. now apply kept_false_iff.
Qed.

Lemma only_keys_iff pk sk (item : JsObject) :
  filter (kept pk sk) (Object_keys item) = [] <-> only_key_fields pk sk item.
Proof.
  rewrite filter_none_iff. unfold only_key_fields.
  split; intros H k Hk; apply kept_false_iff; now apply H.
Qed.

(** ** [insertOrUpdate], case by case *)

Lemma insertOrUpdate_no_key tableName pk (item : JsObject) sk (w : World) :
  ~ has_key_field pk sk item ->
  insertOrUpdate tableName pk item sk w
  = (Throw (JsError "No partition key is found"), w).
Proof.
  intros H. apply no_key_iff in H. unfold insertOrUpdate. fold (kept pk sk).
  rewrite H, Nat.eqb_refl. reflexivity.
Qed.

Lemma insertOrUpdate_keys_only tableName pk (item : JsObject) sk (w : World) :
  has_key_field pk sk item ->
  only_key_fields pk sk item ->
  insertOrUpdate tableName pk item sk w
  = ddbDocClient_send
      (UpdateItemCommand
         {| u_TableName := tableName;
            u_Key := upsert_key pk sk item;
            u_ReturnValues := Some "ALL_NEW";
            u_UpdateExpression := None;
            u_ExpressionAttributeNames := None;
            u_ExpressionAttributeValues := None |}) w.
Proof.
  intros Hk Ho. apply only_keys_iff in Ho.
  assert (Hn : length (filter (kept pk sk) (Object_keys item))
               <> length (Object_keys item)).
  { intros E. apply no_key_iff in E. contradiction. }
  apply Nat.eqb_neq in Hn.
  unfold insertOrUpdate. fold (kept pk sk). rewrite Hn, Ho. simpl.
  unfold bind, ret, upsert_key. destruct sk as [s|]; [|reflexivity].
  destruct (truthy_string (Some s)); reflexivity.
Qed.

Lemma insertOrUpdate_with_fields tableName pk (item : JsObject) sk (w : World) values :
  has_key_field pk sk item ->
  filter (kept pk sk) (Object_keys item) <> [] ->
  marshall
    (reduce (fun accumulator k index =>
               prop_set accumulator (value_placeholder index) (js_get item k))
            (filter (kept pk sk) (Object_keys item)) [])
    (Some {| convertEmptyValues := None;
             removeUndefinedValues := Some true;
             convertClassInstanceToMap := None |}) = inr values ->
  insertOrUpdate tableName pk item sk w
  = ddbDocClient_send
      (UpdateItemCommand
         {| u_TableName := tableName;
            u_Key := upsert_key pk sk item;
            u_ReturnValues := Some "ALL_NEW";
            u_UpdateExpression :=
              Some ("SET " ++
                    join ", "
                      (mapi (fun (_ : string) index =>
                               field_placeholder index ++ " = " ++ value_placeholder index)
                            (filter (kept pk sk) (Object_keys item))))%string;
            u_ExpressionAttributeNames :=
              Some (reduce (fun accumulator k index =>
                              prop_set accumulator (field_placeholder index) k)
                           (filter (kept pk sk) (Object_keys item)) []);
            u_ExpressionAttributeValues := Some values |}) w.
Proof.
  intros Hk Hne Hm.
  assert (Hn : length (filter (kept pk sk) (Object_keys item))
               <> length (Object_keys item)).
  { intros E. apply no_key_iff in E. contradiction. }
  apply Nat.eqb_neq in Hn.
  unfold insertOrUpdate. fold (kept pk sk). rewrite Hn.
  destruct (filter (kept pk sk) (Object_keys item)) as [|k0 ks] eqn:Ef;
    [contradiction|].
  change (Nat.ltb 0 (length (k0 :: ks))) with true. cbv iota.
  rewrite Hm. unfold lift_sdk, bind, ret, upsert_key. simpl.
  destruct sk as [s|]; [|reflexivity].
  destruct (truthy_string (Some s)); reflexivity.
Qed.

Lemma insertOrUpdate_marshall_fails tableName pk (item : JsObject) sk (w : World) e :
  has_key_field pk sk item ->
  filter (kept pk sk) (Object_keys item) <> [] ->
  marshall
    (reduce (fun accumulator k index =>
               prop_set accumulator (value_placeholder index) (js_get item k))
            (filter (kept pk sk) (Object_keys item)) [])
    (Some {| convertEmptyValues := None;
             removeUndefinedValues := Some true;
             convertClassInstanceToMap := None |}) = inl e ->
  insertOrUpdate tableName pk item sk w = (Throw (SdkThrown e), w).
Proof.
  intros Hk Hne Hm.
  assert (Hn : length (filter (kept pk sk) (Object_keys item))
               <> length (Object_keys item)).
  { intros E. apply no_key_iff in E. contradiction. }
  apply Nat.eqb_neq in Hn.
  unfold insertOrUpdate. fold (kept pk sk). rewrite Hn.
  destruct (filter (kept pk sk) (Object_keys item)) as [|k0 ks] eqn:Ef;
    [contradiction|].
  change (Nat.ltb 0 (length (k0 :: ks))) with true. cbv iota.
  rewrite Hm. reflexivity.
Qed.

Lemma has_key_dec pk sk (item : JsObject) :
  has_key_field pk sk item \/ ~ has_key_field pk sk item.
Proof.
  destruct (Nat.eqb (length (filter (kept pk sk) (Object_keys item)))
                    (length (Object_keys item))) eqn:E.
  - right. apply no_key_iff. now apply Nat.eqb_eq.
  - left. apply Nat.eqb_neq in E.
    destruct (existsb (fun k => negb (kept pk sk k)) (Object_keys item)) eqn:Ex.
    + apply existsb_exists in Ex. destruct Ex as (k & Hk & Hf).
      exists k. split; [exact Hk|]. apply kept_false_iff.
      now apply negb_true_iff.
    + exfalso. apply E. apply filter_all_iff. intros k Hk.
      destruct (kept pk sk k) eqn:Ek; [reflexivity|]. exfalso.
      assert (existsb (fun k => negb (kept pk sk k)) (Object_keys item) = true).
      { apply existsb_exists. exists k. split; [exact Hk|]. now rewrite Ek. }
      congruence.
Qed.

(** Whatever the item, [insertOrUpdate] issues at most one request, an
    update of the given table under the key built from the item. *)
Lemma insertOrUpdate_issued tableName pk (item : JsObject) sk (w : World) r :
  In r (issued (insertOrUpdate tableName pk item sk) w) ->
  exists p,
    r = (sending_client w, UpdateItemCommand p)
    /\ u_TableName p = tableName
    /\ u_Key p = upsert_key pk sk item.
Proof.
  destruct (has_key_dec pk sk item) as [Hk|Hk].
  - destruct (filter (kept pk sk) (Object_keys item)) as [|k0 ks] eqn:Ef.
    + apply only_keys_iff in Ef.
      rewrite (issued_via_send (insertOrUpdate tableName pk item sk) w _ (f_equal snd (insertOrUpdate_keys_only tableName pk item sk w Hk Ef))).
      intros [<-|[]]. eexists. repeat split.
    + assert (Hne : filter (kept pk sk) (Object_keys item) <> []) by (rewrite Ef; discriminate).
      destruct (marshall
        (reduce (fun accumulator k index =>
                   prop_set accumulator (value_placeholder index) (js_get item k))
                (filter (kept pk sk) (Object_keys item)) [])
        (Some {| convertEmptyValues := None;
                 removeUndefinedValues := Some true;
                 convertClassInstanceToMap := None |})) as [e|values] eqn:Em.
      * rewrite issued_unchanged; [intros []|].
        now rewrite (insertOrUpdate_marshall_fails tableName pk item sk w e Hk Hne Em).
      * rewrite (issued_via_send (insertOrUpdate tableName pk item sk) w _ (f_equal snd (insertOrUpdate_with_fields tableName pk item sk w values Hk Hne Em))).
        intros [<-|[]]. eexists. repeat split.
  - rewrite issued_unchanged; [intros []|].
    now rewrite (insertOrUpdate_no_key tableName pk item sk w Hk).
Qed.

(** ** Own properties *)

Lemma prop_owns_single {V} (k s : string) (a : V) :
  prop_owns [(k, a)] s = String.eqb k s.
Proof.
  unfold prop_owns. simpl. now destruct (String.eqb k s).
Qed.

Lemma prop_add_index_In {V} (o : Obj V) n k v x :
  In x (prop_add_index o n k v) <-> x = (k, v) \/ In x o.
Proof.
  induction o as [|[k' v'] o IH]; simpl.
  - split; [intros [<-|[]]; now left | intros [->|[]]; now left].
  - destruct (array_index k') as [m|].
    + destruct (N.ltb m n); simpl.
      * rewrite IH. tauto.
      * split; [intros [<-|H]; tauto | intros [->|H]; tauto].
    + simpl. split; [intros [<-|H]; tauto | intros [->|H]; tauto].
Qed.

Lemma prop_add_In {V} (o : Obj V) k v x :
  In x (prop_add o k v) <-> x = (k, v) \/ In x o.
Proof.
  unfold prop_add. destruct (array_index k) as [n|].
  - apply prop_add_index_In.
  - rewrite in_app_iff. simpl. split; [intros [H|[<-|[]]]; tauto | intros [->|H]; tauto].
Qed.

(** The [Key] of [insertOrUpdate], case by case: the partition key alone
    (no sort key, an empty one, the partition key again, or a name whose
    assignment a setter of the prototype takes), or both keys, in
    enumeration order. *)
Lemma upsert_key_shape pk sk (item : JsObject) :
  (upsert_key pk sk item = [(pk, AttrS (js_get item pk))]
   /\ forall s, sk = Some s ->
                s = EmptyString \/ s = pk \/ prototype_setter s = true)
  \/ exists s,
       sk = Some s /\ s <> EmptyString /\ s <> pk /\ prototype_setter s = false
       /\ (upsert_key pk sk item
           = [(pk, AttrS (js_get item pk)); (s, AttrS (js_get item s))]
           \/ upsert_key pk sk item
              = [(s, AttrS (js_get item s)); (pk, AttrS (js_get item pk))]).
Proof.
  unfold upsert_key. destruct sk as [s|]; [|left; split; [reflexivity | discriminate]].
  unfold truthy_string. destruct (String.eqb s EmptyString) eqn:Ee; simpl.
  - left. split; [reflexivity|]. intros s' E. inversion E; subst.
    left. now apply String.eqb_eq.
  - apply String.eqb_neq in Ee. unfold prop_assign. rewrite prop_owns_single.
    destruct (String.eqb pk s) eqn:Ep.
    + apply String.eqb_eq in Ep. subst s. left. split.
      * simpl. now rewrite String.eqb_refl.
      * intros s' E. inversion E. auto.
    + apply String.eqb_neq in Ep. destruct (prototype_setter s) eqn:Es.
      * left. split; [reflexivity|]. intros s' E. inversion E; subst. auto.
      * right. exists s. repeat split; auto.
        unfold prop_add. destruct (array_index s) as [n|]; [|now left]. simpl.
        destruct (array_index pk) as [m|]; [|now right].
        destruct (N.ltb m n); [now left | now right].
Qed.

Lemma upsert_key_entries pk sk (item : JsObject) :
  Forall (fun kv => key_field pk sk (fst kv) /\ snd kv = AttrS (js_get item (fst kv)))
         (upsert_key pk sk item).
Proof.
  destruct (upsert_key_shape pk sk item)
    as [[E _]|(s & Hs & _ & _ & _ & [E|E])]; rewrite E; unfold key_field.
  - constructor; [simpl; auto | constructor].
  - constructor; [simpl; auto|]. constructor; [simpl; auto | constructor].
  - constructor; [simpl; auto|]. constructor; [simpl; auto | constructor].
Qed.

Lemma upsert_key_has_pk pk sk (item : JsObject) :
  In pk (Object_keys (upsert_key pk sk item)).
Proof.
  destruct (upsert_key_shape pk sk item)
    as [[E _]|(s & _ & _ & _ & _ & [E|E])]; rewrite E; simpl; auto.
Qed.

(** A sort key that is given and not empty is in the [Key] exactly when it
    is the partition key or its assignment is not taken by a setter. *)
Lemma upsert_key_has_sk pk s (item : JsObject) :
  s <> EmptyString ->
  (In s (Object_keys (upsert_key pk (Some s) item))
   <-> s = pk \/ prototype_setter s = false).
Proof.
  intros Hs.
  destruct (upsert_key_shape pk (Some s) item)
    as [[E H]|(s' & Hs' & _ & Hne & Hset & [E|E])]; rewrite E; simpl.
  - destruct (H s eq_refl) as [H1|[H1|H1]]; [contradiction | |].
    + split; [now left | intros _; left; now symmetry].
    + split.
      * intros [Hp|[]]. left. now symmetry.
      * intros [Hp|Hp]; [left; now symmetry | congruence].
  - inversion Hs'; subst s'. split; [now right | intros _; right; now left].
  - inversion Hs'; subst s'. split; [now right | intros _; now left].
Qed.

(** ** Claims on [insertOrUpdate] *)

(** C1 (amended).  For every table name, partition-key field and item
    whose fields are exactly the key fields (the partition key and, if
    given, the sort key), [insertOrUpdate] raises no validation error: it
    issues exactly one request, an update under the key taken from the item
    and carrying no update expression, names or values, and it completes as
    that request does. *)
Theorem insertOrUpdate_key_only_item_is_sent
  tableName pk (item : JsObject) sk (w : World) :
  exactly_key_fields pk sk item ->
  let request :=
    UpdateItemCommand
      {| u_TableName := tableName;
         u_Key := upsert_key pk sk item;
         u_ReturnValues := Some "ALL_NEW"%string;
         u_UpdateExpression := None;
         u_ExpressionAttributeNames := None;
         u_ExpressionAttributeValues := None |} in
  insertOrUpdate tableName pk item sk w = ddbDocClient_send request w
  /\ issued (insertOrUpdate tableName pk item sk) w = [(sending_client w, request)]
  /\ (forall msg w', insertOrUpdate tableName pk item sk w <> (Throw (JsError msg), w')).
Proof.
  intros (Hpk & _ & Honly) request.
  assert (Hk : has_key_field pk sk item).
  { exists pk. split; [exact Hpk | now left]. }
  pose proof (insertOrUpdate_keys_only tableName pk item sk w Hk Honly) as E.
  fold request in E. split; [exact E|]. split.
  - exact (issued_via_send (insertOrUpdate tableName pk item sk) w _ (f_equal snd E)).
  - intros msg w' E'. rewrite E in E'. exact (send_not_JsError request w w' msg E').
Qed.

(** C7.  For the call [insertOrUpdate(table, "id", {id: "1", name: "a"})],
    the one request issued is an update whose key is [id = S "1"], whose
    update expression is [SET #field0 = :value0] with [#field0] naming
    [name] and nothing else, and whose values are what [marshall] makes of
    [{":value0": "a"}]. *)
Theorem insertOrUpdate_id_name tableName (w : World) values :
  marshall [(":value0"%string, JString "a")]
    (Some {| convertEmptyValues := None;
             removeUndefinedValues := Some true;
             convertClassInstanceToMap := None |}) = inr values ->
  let request :=
    UpdateItemCommand
      {| u_TableName := tableName;
         u_Key := [("id"%string, AttrS (JString "1"))];
         u_ReturnValues := Some "ALL_NEW"%string;
         u_UpdateExpression := Some "SET #field0 = :value0"%string;
         u_ExpressionAttributeNames := Some [("#field0", "name")]%string;
         u_ExpressionAttributeValues := Some values |} in
  let item := [("id"%string, JString "1"); ("name"%string, JString "a")] in
  insertOrUpdate tableName "id" item None w = ddbDocClient_send request w
  /\ issued (insertOrUpdate tableName "id" item None) w = [(sending_client w, request)].
Proof.
  intros Hm request item.
  assert (E : insertOrUpdate tableName "id" item None w = ddbDocClient_send request w).
  { apply (insertOrUpdate_with_fields tableName "id" item None w values).
    - exists "id"%string. split; [simpl; auto | now left].
    - discriminate.
    - exact Hm. }
  split; [exact E|].
  exact (issued_via_send (insertOrUpdate tableName "id" item None) w _ (f_equal snd E)).
Qed.

(** C9.  [insertOrUpdate] raises its validation error, with the message
    'No partition key is found' and before any request, exactly when the
    item contains neither the partition-key field nor the sort-key field; an
    item that contains a key field and only key fields passes validation,
    and the one request issued is an update without update expression. *)
Theorem insertOrUpdate_validation tableName pk (item : JsObject) sk (w : World) :
  ((exists w', insertOrUpdate tableName pk item sk w
               = (Throw (JsError "No partition key is found"), w'))
   <-> ~ has_key_field pk sk item)
  /\ (~ has_key_field pk sk item ->
      insertOrUpdate tableName pk item sk w
      = (Throw (JsError "No partition key is found"), w)
      /\ issued (insertOrUpdate tableName pk item sk) w = [])
  /\ (has_key_field pk sk item -> only_key_fields pk sk item ->
      (forall msg w', insertOrUpdate tableName pk item sk w <> (Throw (JsError msg), w'))
      /\ exists p,
           issued (insertOrUpdate tableName pk item sk) w
           = [(sending_client w, UpdateItemCommand p)]
           /\ u_UpdateExpression p = None).
Proof.
  split; [|split].
  - split.
    + intros [w' E] Hk.
      destruct (filter (kept pk sk) (Object_keys item)) as [|k0 ks] eqn:Ef.
      * apply only_keys_iff in Ef.
        rewrite (insertOrUpdate_keys_only tableName pk item sk w Hk Ef) in E.
        send_absurd E.
      * assert (Hne : filter (kept pk sk) (Object_keys item) <> [])
          by (rewrite Ef; discriminate).
        destruct (marshall
          (reduce (fun accumulator k index =>
                     prop_set accumulator (value_placeholder index) (js_get item k))
                  (filter (kept pk sk) (Object_keys item)) [])
          (Some {| convertEmptyValues := None;
                   removeUndefinedValues := Some true;
                   convertClassInstanceToMap := None |})) as [e|values] eqn:Em.
        -- rewrite (insertOrUpdate_marshall_fails tableName pk item sk w e Hk Hne Em) in E.
           discriminate.
        -- rewrite (insertOrUpdate_with_fields tableName pk item sk w values Hk Hne Em) in E.
           send_absurd E.
    + intros Hk. exists w. now apply insertOrUpdate_no_key.
  - intros Hk. pose proof (insertOrUpdate_no_key tableName pk item sk w Hk) as E.
    split; [exact E|]. apply issued_unchanged. now rewrite E.
  - intros Hk Ho. pose proof (insertOrUpdate_keys_only tableName pk item sk w Hk Ho) as E.
    split.
    + intros msg w' E'. rewrite E in E'. send_absurd E'.
    + eexists. split.
      * exact (issued_via_send (insertOrUpdate tableName pk item sk) w _ (f_equal snd E)).
      * reflexivity.
Qed.

(** ** Calls made of one send and a tail that leaves the world alone *)

Lemma bind_normal {A B} (m : Async A) (k : A -> Async B) (w w' : World) a :
  m w = (Normal a, w') -> bind m k w = k a w'.
Proof.
  intros E. unfold bind. now rewrite E.
Qed.

Lemma bind_throw {A B} (m : Async A) (k : A -> Async B) (w w' : World) e :
  m w = (Throw e, w') -> bind m k w = (Throw e, w').
Proof.
  intros E. unfold bind. now rewrite E.
Qed.

Lemma bind_send_world {A} (c : Command) (k : OutputOf c -> Async A) (w : World) :
  (forall x w', snd (k x w') = w') ->
  snd ((x <- ddbDocClient_send c ;; k x) w) = snd (ddbDocClient_send c w).
Proof.
  intros Hk. unfold bind.
  destruct (ddbDocClient_send c w) as [[out|e] w']; simpl; [apply Hk | reflexivity].
Qed.

Lemma bind_send_issued {A} (c : Command) (k : OutputOf c -> Async A) (w : World) :
  (forall x w', snd (k x w') = w') ->
  issued (x <- ddbDocClient_send c ;; k x) w = [(sending_client w, c)].
Proof.
  intros Hk. apply issued_via_send. now apply bind_send_world.
Qed.

Lemma bind_send_ok {A} (c : Command) (k : OutputOf c -> Async A) (w : World) out st :
  service (sending_client w) c (store w) = (inr out, st) ->
  (x <- ddbDocClient_send c ;; k x) w = k out (log_request (sending_client w) c st w).
Proof.
  intros E. unfold bind. rewrite (send_ok c w out st E). reflexivity.
Qed.

(** Rewrites with [bind_send_ok] from [Es : service _ c _ = (inr out, st)]. *)
Ltac send_answered Es :=
  match type of Es with
  | service _ ?c (store ?w) = (inr ?out, ?st) =>
      rewrite (bind_send_ok c _ w out st Es)
  end.

Lemma decode_items_world (items : option (list AttrMap)) (w : World) :
  snd (decode_items items w) = w.
Proof.
  unfold decode_items. destruct (no_items items); [reflexivity|].
  destruct items as [l|]; [|reflexivity].
  unfold bind, lift_sdk. destruct (map_throwing unmarshall l); reflexivity.
Qed.

Lemma no_items_empty {A} (items : option (list A)) :
  empty_result items -> no_items items = true.
Proof.
  intros [->| ->]; reflexivity.
Qed.

Lemma decode_items_empty (items : option (list AttrMap)) (w : World) :
  empty_result items -> decode_items items w = (Normal (JArray []), w).
Proof.
  intros H. unfold decode_items. rewrite (no_items_empty items H). reflexivity.
Qed.

Lemma map_throwing_Forall2 {A B} (f : A -> SdkError + B) (l : list A) (r : list B) :
  map_throwing f l = inr r <-> Forall2 (fun x y => f x = inr y) l r.
Proof.
  revert r. induction l as [|x l IH]; intros r; simpl.
  - split.
    + intros E. inversion E. constructor.
    + intros H. inversion H. reflexivity.
  - destruct (f x) as [e|y] eqn:Ex.
    + split; [discriminate|]. intros H. inversion H; subst. congruence.
    + destruct (map_throwing f l) as [e|ys] eqn:El.
      * split; [discriminate|]. intros H. inversion H; subst.
        match goal with
        | Hr : Forall2 _ l ?r' |- _ => apply IH in Hr; discriminate
        end.
      * split.
        -- intros E. inversion E; subst. constructor; [exact Ex | now apply IH].
        -- intros H. inversion H; subst.
           match goal with
           | Hr : Forall2 _ l ?r' |- _ => apply IH in Hr; inversion Hr; subst
           end.
           congruence.
Qed.

Lemma decode_items_decoded (l : list AttrMap) (decoded : list JsObject) (w : World) :
  Forall2 (fun raw obj => unmarshall raw = inr obj) l decoded ->
  decode_items (Some l) w = (Normal (JArray (map JObject decoded)), w).
Proof.
  intros H. pose proof H as H2. apply map_throwing_Forall2 in H.
  unfold decode_items. destruct l as [|x l].
  - inversion H2. reflexivity.
  - change (no_items (Some (x :: l))) with false. cbv iota.
    unfold bind, lift_sdk. rewrite H. reflexivity.
Qed.

(** ** Lookups and scans *)

Lemma findOne_issued tableName pk (pkValue : JsValue) (w : World) :
  issued (findOne tableName pk pkValue) w
  = [(sending_client w, findOne_query tableName pk pkValue)].
Proof.
  unfold findOne, findOne_query. apply bind_send_issued.
  intros x w'. destruct (no_items (q_Items x)); [reflexivity|].
  destruct (q_Items x) as [[|first rest]|]; reflexivity.
Qed.

Lemma findMany_issued tableName pk (pkValue : JsValue) (w : World) :
  issued (findMany tableName pk pkValue) w
  = [(sending_client w, findOne_query tableName pk pkValue)].
Proof.
  unfold findMany, findOne_query. apply bind_send_issued.
  intros x w'. destruct (q_Items x) as [l|]; [|reflexivity].
  destruct (Nat.eqb (length l) 0); reflexivity.
Qed.

Lemma findManyByField_issued tableName field (value : JsValue) (w : World) :
  issued (findManyByField tableName field value) w
  = [(sending_client w,
      ScanCommand
        {| s_TableName := tableName;
           s_FilterExpression := Some (field ++ " = :u")%string;
           s_ExpressionAttributeNames := None;
           s_ExpressionAttributeValues := Some [(":u"%string, AttrS value)];
           s_Limit := None;
           s_ExclusiveStartKey := None |})].
Proof.
  unfold findManyByField. apply bind_send_issued.
  intros x w'. apply decode_items_world.
Qed.

Lemma findManyPlain_issued tableName filterExpression (values : AttrMap) (w : World) :
  issued (findManyPlain tableName filterExpression values) w
  = [(sending_client w,
      ScanCommand
        {| s_TableName := tableName;
           s_FilterExpression := Some filterExpression;
           s_ExpressionAttributeNames := None;
           s_ExpressionAttributeValues := Some values;
           s_Limit := None;
           s_ExclusiveStartKey := None |})].
Proof.
  unfold findManyPlain. apply bind_send_issued.
  intros x w'. apply decode_items_world.
Qed.

Lemma findWithin_issued tableName key (start end_ : number) (w : World) :
  issued (findWithin tableName key start end_) w
  = [(sending_client w, ScanCommand (findWithin_scan tableName key start end_))].
Proof.
  unfold findWithin, findWithin_scan. apply bind_send_issued.
  intros x w'. apply decode_items_world.
Qed.

(** The validation loop of [findOperated] leaves the world alone. *)
Lemma check_filter_world (filter : JsObject) operators keys (w : World) :
  check_filter filter operators keys w = (Normal tt, w)
  \/ exists msg, check_filter filter operators keys w = (Throw (JsError msg), w).
Proof.
  induction keys as [|k keys IH]; simpl.
  - now left.
  - destruct (no_operator operators k).
    + right. eexists. reflexivity.
    + destruct (negb (JsType_eqb (typeof (js_get filter k)) TString)
                && negb (JsType_eqb (typeof (js_get filter k)) TNumber)).
      * right. eexists. reflexivity.
      * exact IH.
Qed.

Lemma JsType_eqb_neq a b : a <> b -> JsType_eqb a b = false.
Proof.
  destruct a, b; simpl; intros H; try reflexivity; now elim H.
Qed.

Lemma check_filter_rejects (filter : JsObject) operators keys (w : World) :
  (exists k, In k keys /\ unaccepted filter operators k) ->
  exists msg, check_filter filter operators keys w = (Throw (JsError msg), w).
Proof.
  induction keys as [|k keys IH]; intros (k0 & Hin & Hbad).
  - destruct Hin.
  - simpl. destruct (no_operator operators k) eqn:Eo.
    + eexists. reflexivity.
    + destruct (negb (JsType_eqb (typeof (js_get filter k)) TString)
                && negb (JsType_eqb (typeof (js_get filter k)) TNumber)) eqn:Et.
      * eexists. reflexivity.
      * destruct Hin as [<-|Hin].
        -- exfalso. destruct Hbad as [Hbad|[Hs Hn]]; [congruence|].
           rewrite (JsType_eqb_neq _ _ Hs), (JsType_eqb_neq _ _ Hn) in Et.
           discriminate.
        -- apply IH. exists k0. now split.
Qed.

Lemma findOperated_cases tableName (filter : JsObject) operators (w : World) :
  (exists e, findOperated tableName filter operators w = (Throw e, w))
  \/ exists c,
       findOperated tableName filter operators w
       = (data <- ddbDocClient_send (ScanCommand c) ;; decode_items (s_Items data)) w.
Proof.
  unfold findOperated.
  destruct (check_filter_world filter operators (Object_keys filter) w) as [E|[msg E]].
  - rewrite (bind_normal _ _ _ _ _ E).
    destruct (marshall
      (reduce (fun accumulator k index =>
                 prop_set accumulator (value_placeholder index) (js_get filter k))
              (Object_keys filter) []) None) as [e|values].
    + left. eexists. reflexivity.
    + right. eexists. reflexivity.
  - left. exists (JsError msg). now rewrite (bind_throw _ _ _ _ _ E).
Qed.

(** C5.  When the query or scan issued by a lookup has an empty result
    set, [findOne] returns [null], while [findMany], [findManyByField],
    [findManyPlain], [findOperated] and [findWithin] return the empty array,
    which is not [null]; on a non-empty result [findOne] returns its first
    item. *)
Theorem empty_results_and_first_item
  tableName pk field key filterExpression (pkValue value : JsValue)
  (values : AttrMap) (filter : JsObject) operators (start end_ : number) (w : World) :
  (empty_answered (findOne tableName pk pkValue) w ->
   fst (findOne tableName pk pkValue w) = Normal JNull)
  /\ (empty_answered (findMany tableName pk pkValue) w ->
      fst (findMany tableName pk pkValue w) = Normal (JArray []))
  /\ (empty_answered (findManyByField tableName field value) w ->
      fst (findManyByField tableName field value w) = Normal (JArray []))
  /\ (empty_answered (findManyPlain tableName filterExpression values) w ->
      fst (findManyPlain tableName filterExpression values w) = Normal (JArray []))
  /\ (empty_answered (findOperated tableName filter operators) w ->
      fst (findOperated tableName filter operators w) = Normal (JArray []))
  /\ (empty_answered (findWithin tableName key start end_) w ->
      fst (findWithin tableName key start end_ w) = Normal (JArray []))
  /\ JArray [] <> (JNull : JsValue)
  /\ (forall out st first rest,
        service (sending_client w) (findOne_query tableName pk pkValue) (store w)
        = (inr out, st) ->
        q_Items out = Some (first :: rest) ->
        fst (findOne tableName pk pkValue w) = Normal (JObject first)).
Proof.
  assert (Hscan : forall c (m : Async JsValue),
            m w = (data <- ddbDocClient_send (ScanCommand c) ;; decode_items (s_Items data)) w ->
            empty_answered m w -> fst (m w) = Normal (JArray [])).
  { intros c m Em (c' & Hi & Ha).
    assert (Hi' : issued m w = [(sending_client w, ScanCommand c)]).
    { apply issued_via_send. rewrite Em. apply bind_send_world.
      intros x w'. apply decode_items_world. }
    rewrite Hi' in Hi. inversion Hi; subst c'. clear Hi.
    unfold answer_is_empty in Ha.
    destruct (service (sending_client w) (ScanCommand c) (store w)) as [r st] eqn:Es.
    simpl in Ha. destruct Ha as (out & -> & Hempty).
    rewrite Em. send_answered Es.
    now rewrite decode_items_empty. }
  repeat split.
  - intros (c' & Hi & Ha). rewrite findOne_issued in Hi. inversion Hi; subst c'. clear Hi.
    unfold answer_is_empty, findOne_query in Ha.
    match type of Ha with
    | context [service ?cl ?c ?s] => destruct (service cl c s) as [r st] eqn:Es
    end.
    simpl in Ha. destruct Ha as (out & -> & Hempty).
    unfold findOne. send_answered Es.
    now rewrite (no_items_empty _ Hempty).
  - intros (c' & Hi & Ha). rewrite findMany_issued in Hi. inversion Hi; subst c'. clear Hi.
    unfold answer_is_empty, findOne_query in Ha.
    match type of Ha with
    | context [service ?cl ?c ?s] => destruct (service cl c s) as [r st] eqn:Es
    end.
    simpl in Ha. destruct Ha as (out & -> & Hempty).
    unfold findMany. send_answered Es.
    destruct Hempty as [-> | ->]; reflexivity.
  - eapply (Hscan _ (findManyByField tableName field value)). reflexivity.
  - eapply (Hscan _ (findManyPlain tableName filterExpression values)). reflexivity.
  - intros He.
    destruct (findOperated_cases tableName filter operators w) as [[e E]|[c E]].
    + exfalso. destruct He as (c' & Hi & _).
      rewrite issued_unchanged in Hi; [discriminate | now rewrite E].
    + now apply (Hscan c).
  - eapply (Hscan _ (findWithin tableName key start end_)). reflexivity.
  - discriminate.
  - intros out st first rest Es Hitems. unfold findOne_query in Es.
    unfold findOne. send_answered Es.
    rewrite Hitems. reflexivity.
Qed.

(** C8.  [findWithin] issues exactly one request, a scan of the table
    whose filter is [key BETWEEN :start AND :end] with both bounds sent under
    the number tag [N], and nothing else set; when the store answers with
    items, the call returns them decoded by [unmarshall], in order. *)
Theorem findWithin_scans_between tableName key (start end_ : number) (w : World) :
  issued (findWithin tableName key start end_) w
  = [(sending_client w,
      ScanCommand
        {| s_TableName := tableName;
           s_FilterExpression := Some (key ++ " BETWEEN :start AND :end")%string;
           s_ExpressionAttributeNames := None;
           s_ExpressionAttributeValues :=
             Some [(":start"%string, AttrN (number_to_string start));
                   (":end"%string, AttrN (number_to_string end_))];
           s_Limit := None;
           s_ExclusiveStartKey := None |})]
  /\ (forall out st items decoded,
        service (sending_client w)
                (ScanCommand (findWithin_scan tableName key start end_)) (store w)
        = (inr out, st) ->
        s_Items out = Some items ->
        Forall2 (fun raw obj => unmarshall raw = inr obj) items decoded ->
        fst (findWithin tableName key start end_ w)
        = Normal (JArray (map JObject decoded))).
Proof.
  split.
  - apply findWithin_issued.
  - intros out st items decoded Es Hitems Hdec.
    unfold findWithin_scan in Es. unfold findWithin.
    send_answered Es. rewrite Hitems.
    now rewrite (decode_items_decoded items decoded).
Qed.

(** C10.  Every request of [insertOrUpdate] is an update whose [Key]
    has entries for key fields only, each being what the item answers for
    that field (its own value, else what it inherits from
    [Object.prototype], else [undefined]) under the string tag [S], whatever
    that value is.  The partition key is always among them; a sort key that
    is given and not empty is among them exactly when it is the partition
    key or its assignment is not taken by a setter of the prototype (as that
    of [__proto__] is).  The request of [deleteOne] has the key [pk] with
    the given value under [S]; the scan of [findManyByField] binds [:u] to
    the given value under [S]. *)
Theorem keys_and_field_values_tagged_S
  tableName pk field (item : JsObject) sk (pkValue value : JsValue) (w : World) :
  (forall r, In r (issued (insertOrUpdate tableName pk item sk) w) ->
     exists p,
       snd r = UpdateItemCommand p
       /\ Forall (fun kv => key_field pk sk (fst kv)
                            /\ is_S (snd kv) = true
                            /\ snd kv = AttrS (js_get item (fst kv)))
                 (u_Key p)
       /\ In pk (Object_keys (u_Key p))
       /\ (forall s, sk = Some s -> s <> EmptyString ->
                     (In s (Object_keys (u_Key p))
                      <-> s = pk \/ prototype_setter s = false)))
  /\ issued (deleteOne tableName pk pkValue) w
     = [(sending_client w,
         DeleteItemCommand {| d_TableName := tableName; d_Key := [(pk, AttrS pkValue)] |})]
  /\ (exists p,
        issued (findManyByField tableName field value) w
        = [(sending_client w, ScanCommand p)]
        /\ s_ExpressionAttributeValues p = Some [(":u"%string, AttrS value)]).
Proof.
  split; [|split].
  - intros r Hr.
    destruct (insertOrUpdate_issued tableName pk item sk w r Hr) as (p & -> & _ & Hkey).
    exists p. split; [reflexivity|]. rewrite Hkey. split; [|split].
    + pose proof (upsert_key_entries pk sk item) as Hall.
      apply Forall_impl with (2 := Hall). intros kv [Hk ->]. now repeat split.
    + apply upsert_key_has_pk.
    + intros s -> Hs. now apply upsert_key_has_sk.
  - unfold deleteOne.
    exact (issued_send (DeleteItemCommand {| d_TableName := tableName; d_Key := [(pk, AttrS pkValue)] |}) w).
  - eexists. split; [apply findManyByField_issued | reflexivity].
Qed.

(** ** The generator of [findAll] *)

Lemma scan_page_fails (p : ScanCommandInput) (w : World) e st :
  service (sending_client w) (ScanCommand p) (store w) = (inl e, st) ->
  scan_page p w
  = (Throw (SdkThrown e), log_request (sending_client w) (ScanCommand p) st w).
Proof.
  intros E. unfold scan_page.
  apply bind_throw. exact (send_fails (ScanCommand p) w e st E).
Qed.

Lemma scan_page_answered (p : ScanCommandInput) (w : World) out st :
  service (sending_client w) (ScanCommand p) (store w) = (inr out, st) ->
  (exists batch,
     scan_page p w
     = (Normal (IterValue batch, GenYielded p out),
        log_request (sending_client w) (ScanCommand p) st w)
     /\ (batch = []
         \/ exists items,
              s_Items out = Some items
              /\ Forall2 (fun raw obj => unmarshall raw = inr obj) items batch))
  \/ (exists e,
        scan_page p w
        = (Throw (SdkThrown e), log_request (sending_client w) (ScanCommand p) st w)).
Proof.
  intros E. unfold scan_page. send_answered E.
  destruct (no_items (s_Items out)).
  - left. exists []. split; [reflexivity | now left].
  - destruct (s_Items out) as [l|] eqn:El.
    + unfold bind, lift_sdk. destruct (map_throwing unmarshall l) as [e|items] eqn:Em.
      * right. exists e. reflexivity.
      * left. exists items. split; [reflexivity|]. right. exists l.
        split; [reflexivity | now apply map_throwing_Forall2].
    + left. exists []. split; [reflexivity | now left].
Qed.

Lemma resume_request (g : Generator) (p : ScanCommandInput) (w : World) :
  next_request g = Some p -> resume g w = scan_page p w.
Proof.
  destruct g as [t l|params data|]; simpl.
  - intros E. inversion E. reflexivity.
  - destruct (s_LastEvaluatedKey data) as [k|]; [|discriminate].
    intros E. inversion E. reflexivity.
  - discriminate.
Qed.

Lemma resume_no_request (g : Generator) (w : World) :
  next_request g = None -> resume g w = (Normal (IterDone, GenCompleted), w).
Proof.
  destruct g as [t l|params data|]; simpl.
  - discriminate.
  - destruct (s_LastEvaluatedKey data) as [k|]; [discriminate | reflexivity].
  - reflexivity.
Qed.

Lemma next_normal (g : Generator) (w w' : World) r :
  resume g w = (Normal r, w') -> next g w = (Normal r, w').
Proof.
  intros E. destruct g as [t l|params data|].
  - unfold next, try_catch. now rewrite E.
  - unfold next, try_catch. now rewrite E.
  - exact E.
Qed.

Lemma next_caught (g : Generator) (w w' : World) e :
  resume g w = (Throw e, w') ->
  next g w = (Normal (IterDone, GenCompleted), log_console e w').
Proof.
  intros E. destruct g as [t l|params data|].
  - unfold next, try_catch. now rewrite E.
  - unfold next, try_catch. now rewrite E.
  - discriminate.
Qed.

(** One turn of the generator, in full. *)
Lemma next_cases (g : Generator) (w : World) :
  (next_request g = None /\ next g w = (Normal (IterDone, GenCompleted), w))
  \/ exists p r st,
       next_request g = Some p
       /\ service (sending_client w) (ScanCommand p) (store w) = (r, st)
       /\ ((exists e,
              next g w
              = (Normal (IterDone, GenCompleted),
                 log_console e (log_request (sending_client w) (ScanCommand p) st w)))
           \/ (exists out batch,
                 r = inr out
                 /\ next g w
                    = (Normal (IterValue batch, GenYielded p out),
                       log_request (sending_client w) (ScanCommand p) st w)
                 /\ (batch = []
                     \/ exists items,
                          s_Items out = Some items
                          /\ Forall2 (fun raw obj => unmarshall raw = inr obj)
                                     items batch))).
Proof.
  destruct (next_request g) as [p|] eqn:Er.
  - right.
    destruct (service (sending_client w) (ScanCommand p) (store w)) as [r st] eqn:Es.
    exists p, r, st. split; [reflexivity|]. split; [exact Es|].
    destruct r as [e|out].
    + left. exists (SdkThrown e). apply next_caught.
      rewrite (resume_request g p w Er). now apply scan_page_fails.
    + destruct (scan_page_answered p w out st Es) as [(batch & E & Hb)|(e & E)].
      * right. exists out, batch. split; [reflexivity|]. split; [|exact Hb].
        apply next_normal. now rewrite (resume_request g p w Er).
      * left. exists (SdkThrown e). apply next_caught.
        now rewrite (resume_request g p w Er).
  - left. split; [reflexivity|]. apply next_normal. now apply resume_no_request.
Qed.

Lemma next_never_throws (g : Generator) (w : World) :
  exists r g' w', next g w = (Normal (r, g'), w').
Proof.
  destruct (next_cases g w) as [[_ E]|(p & r & st & _ & _ & [[e E]|(out & batch & _ & E & _)])];
    rewrite E; eauto.
Qed.

Lemma consume_never_throws (fuel : nat) (g : Generator) (w : World) :
  exists batches done w', consume fuel g w = (Normal (batches, done), w').
Proof.
  revert g w. induction fuel as [|fuel IH]; intros g w; simpl.
  - eexists _, _, _. reflexivity.
  - destruct (next_never_throws g w) as (r & g' & w' & E).
    rewrite (bind_normal _ _ _ _ _ E). destruct r as [batch|].
    + destruct (IH g' w') as (bs & d & w'' & E').
      rewrite (bind_normal _ _ _ _ _ E'). eexists _, _, _. reflexivity.
    + eexists _, _, _. reflexivity.
Qed.

(** C3.  A turn of the generator of [findAll] never throws, in whatever
    state the generator is; if the scan it issues fails, the error is
    written to the console, the turn answers [done] and the generator is
    completed, after which every turn answers [done]; the consumer loop
    therefore never sees an error. *)
Theorem findAll_swallows_scan_errors (g : Generator) (w : World) :
  (exists r g' w', next g w = (Normal (r, g'), w'))
  /\ (forall p e st,
        next_request g = Some p ->
        service (sending_client w) (ScanCommand p) (store w) = (inl e, st) ->
        next g w
        = (Normal (IterDone, GenCompleted),
           log_console (SdkThrown e)
             (log_request (sending_client w) (ScanCommand p) st w)))
  /\ (forall w', next GenCompleted w' = (Normal (IterDone, GenCompleted), w'))
  /\ (forall fuel, exists batches done w',
        consume fuel g w = (Normal (batches, done), w')).
Proof.
  split; [apply next_never_throws|]. split; [|split].
  - intros p e st Er Es. apply next_caught.
    rewrite (resume_request g p w Er). now apply scan_page_fails.
  - reflexivity.
  - intros fuel. apply consume_never_throws.
Qed.

Lemma next_request_of t l (g : Generator) (p : ScanCommandInput) :
  generator_of t l g -> next_request g = Some p ->
  s_TableName p = t /\ s_Limit p = Some l.
Proof.
  destruct g as [t' l'|params data|]; simpl.
  - intros [-> ->] E. inversion E. split; reflexivity.
  - intros [Ht Hl]. destruct (s_LastEvaluatedKey data); [|discriminate].
    intros E. inversion E. split; assumption.
  - discriminate.
Qed.

(** One turn from a generator of table [t] and batch size [l]: the requests
    added are scans of [t] with [Limit] [l], and the generator stays one. *)
Lemma next_requests t l (g : Generator) (w : World) :
  generator_of t l g ->
  exists r g' w' reqs,
    next g w = (Normal (r, g'), w')
    /\ sent w' = sent w ++ reqs
    /\ Forall (scan_with_limit t l) reqs
    /\ generator_of t l g'.
Proof.
  intros Hg.
  destruct (next_cases g w)
    as [[_ E]|(p & r & st & Er & _ & [[e E]|(out & batch & _ & E & _)])].
  - exists IterDone, GenCompleted, w, []. rewrite app_nil_r.
    repeat split; [exact E | constructor].
  - destruct (next_request_of t l g p Hg Er) as [Ht Hl].
    eexists _, _, _, [_]. split; [exact E|]. split; [reflexivity|].
    split; [|exact I]. constructor; [|constructor]. exists p. auto.
  - destruct (next_request_of t l g p Hg Er) as [Ht Hl].
    eexists _, _, _, [_]. split; [exact E|]. split; [reflexivity|].
    split; [|split; assumption]. constructor; [|constructor]. exists p. auto.
Qed.

Lemma consume_requests t l (fuel : nat) (g : Generator) (w : World) :
  generator_of t l g ->
  exists reqs,
    sent (snd (consume fuel g w)) = sent w ++ reqs
    /\ Forall (scan_with_limit t l) reqs.
Proof.
  revert g w. induction fuel as [|fuel IH]; intros g w Hg; simpl.
  - exists []. now rewrite app_nil_r.
  - destruct (next_requests t l g w Hg) as (r & g' & w' & reqs & E & Hs & Hall & Hg').
    rewrite (bind_normal _ _ _ _ _ E). destruct r as [batch|].
    + destruct (IH g' w' Hg') as (reqs' & Hs' & Hall').
      destruct (consume_never_throws fuel g' w') as (bs & d & w'' & E').
      rewrite E' in Hs'. rewrite (bind_normal _ _ _ _ _ E'). simpl in *.
      exists (reqs ++ reqs'). rewrite Hs', Hs, app_assoc. split; [reflexivity|].
      apply Forall_app. now split.
    + exists reqs. now split.
Qed.

Lemma Forall2_same_length {A B} (R : A -> B -> Prop) (l : list A) (r : list B) :
  Forall2 R l r -> length l = length r.
Proof.
  induction 1; simpl; congruence.
Qed.

Lemma next_batch_bounded t l (g g' : Generator) (w w' : World) batch :
  honours_limit ->
  generator_of t l g ->
  next g w = (Normal (IterValue batch, g'), w') ->
  length batch <= l /\ generator_of t l g'.
Proof.
  intros Hh Hg E.
  destruct (next_cases g w)
    as [[_ E']|(p & r & st & Er & Es & [[e E']|(out & b & -> & E' & Hb)])];
    rewrite E' in E; inversion E; subst.
  destruct (next_request_of t l g p Hg Er) as [Ht Hl].
  split; [|split; assumption].
  destruct Hb as [->|(items & Hi & Hf)]; [simpl; lia|].
  rewrite <- (Forall2_same_length _ _ _ Hf).
  exact (Hh _ _ _ _ _ _ _ Es Hi Hl).
Qed.

Lemma consume_batches t l (fuel : nat) (g : Generator) (w w' : World) batches done :
  honours_limit ->
  generator_of t l g ->
  consume fuel g w = (Normal (batches, done), w') ->
  Forall (fun batch => length batch <= l) batches.
Proof.
  intros Hh. revert g w w' batches done.
  induction fuel as [|fuel IH]; intros g w w' batches done Hg E; simpl in E.
  - inversion E. constructor.
  - destruct (next_never_throws g w) as (r & g' & w1 & En).
    rewrite (bind_normal _ _ _ _ _ En) in E. destruct r as [batch|].
    + destruct (next_batch_bounded t l g g' w w1 batch Hh Hg En) as [Hb Hg'].
      destruct (consume_never_throws fuel g' w1) as (bs & d & w2 & Ec).
      rewrite (bind_normal _ _ _ _ _ Ec) in E. inversion E; subst.
      constructor; [exact Hb|]. eapply IH; eassumption.
    + inversion E. constructor.
Qed.

Lemma scan_page_yields (p : ScanCommandInput) (w w' : World) r g :
  scan_page p w = (Normal (r, g), w') -> exists batch, r = IterValue batch.
Proof.
  unfold scan_page, bind.
  destruct (ddbDocClient_send (ScanCommand p) w) as [[out|e] w1]; [|discriminate].
  destruct (no_items (s_Items out)).
  - intros E. inversion E. eauto.
  - destruct (s_Items out) as [l|].
    + unfold lift_sdk. destruct (map_throwing unmarshall l); [discriminate|].
      intros E. inversion E. eauto.
    + intros E. inversion E. eauto.
Qed.

(** C4 (amended).  [findAll] requests every page with [Limit] equal to the
    requested batch size, so that, when the store honours [Limit], every
    batch has at most that many items; after a yielded page the generator
    requests a further page exactly when the response carried a
    continuation token, and it stops yielding when a response carries no
    continuation token or when the turn fails (a failed scan or a failed
    decoding, both caught). *)
Theorem findAll_pages tableName (limit : option nat) (w : World) :
  (forall fuel,
     Forall (scan_with_limit tableName (batch_size limit))
            (issued (consume fuel (findAll tableName limit)) w))
  /\ (honours_limit ->
      forall fuel batches done w',
        consume fuel (findAll tableName limit) w = (Normal (batches, done), w') ->
        Forall (fun batch => length batch <= batch_size limit) batches)
  /\ (forall (params : ScanCommandInput) (data : ScanCommandOutput) (w1 : World),
        (forall k,
           s_LastEvaluatedKey data = Some k ->
           issued (next (GenYielded params data)) w1
           = [(sending_client w1, ScanCommand (continue_from params k))])
        /\ (s_LastEvaluatedKey data = None ->
            next (GenYielded params data) w1 = (Normal (IterDone, GenCompleted), w1))
        /\ (fst (next (GenYielded params data) w1) = Normal (IterDone, GenCompleted)
            <-> s_LastEvaluatedKey data = None
                \/ exists e w2, resume (GenYielded params data) w1 = (Throw e, w2))).
Proof.
  assert (Hg : generator_of tableName (batch_size limit) (findAll tableName limit)).
  { split; reflexivity. }
  split; [|split].
  - intros fuel.
    destruct (consume_requests tableName (batch_size limit) fuel _ w Hg)
      as (reqs & Hs & Hall).
    unfold issued. rewrite Hs, skipn_length_app. exact Hall.
  - intros Hh fuel batches done w' E.
    exact (consume_batches _ _ fuel _ w w' batches done Hh Hg E).
  - intros params data w1. split; [|split].
    + intros k Hk.
      assert (Er : next_request (GenYielded params data) = Some (continue_from params k)).
      { simpl. now rewrite Hk. }
      destruct (next_cases (GenYielded params data) w1)
        as [[En _]|(p & r & st & Er' & _ & [[e E]|(out & batch & _ & E & _)])].
      * congruence.
      * rewrite Er in Er'. inversion Er'; subst p.
        unfold issued. rewrite E. simpl. apply skipn_length_app.
      * rewrite Er in Er'. inversion Er'; subst p.
        unfold issued. rewrite E. simpl. apply skipn_length_app.
    + intros Hk. apply next_normal. apply resume_no_request. simpl. now rewrite Hk.
    + split.
      * intros E.
        destruct (resume (GenYielded params data) w1) as [[[r g']|e] w2] eqn:Er.
        -- rewrite (next_normal _ _ _ _ Er) in E. simpl in E. inversion E; subst.
           destruct (s_LastEvaluatedKey data) as [k|] eqn:Ek; [|now left].
           exfalso. simpl in Er. rewrite Ek in Er.
           destruct (scan_page_yields _ _ _ _ _ Er) as [batch Hb]. discriminate.
        -- right. eauto.
      * intros [Hk|(e & w2 & Er)].
        -- assert (Er : next_request (GenYielded params data) = None).
           { simpl. now rewrite Hk. }
           now rewrite (next_normal _ _ _ _ (resume_no_request _ w1 Er)).
        -- now rewrite (next_caught _ _ _ _ Er).
Qed.

(** ** Configuration changes and the client of the requests *)

Lemma step_refl (w : World) : same_client_step w w.
Proof.
  split; [reflexivity|]. exists []. now rewrite app_nil_r.
Qed.

Lemma step_request (w : World) (c : Command) st :
  same_client_step w (log_request (sending_client w) c st w).
Proof.
  split; [reflexivity|]. exists [(sending_client w, c)].
  split; [reflexivity|]. constructor; [reflexivity | constructor].
Qed.

Lemma step_console (w w' : World) e :
  same_client_step w w' -> same_client_step w (log_console e w').
Proof.
  intros H. exact H.
Qed.

Lemma step_trans (w1 w2 w3 : World) :
  same_client_step w1 w2 -> same_client_step w2 w3 -> same_client_step w1 w3.
Proof.
  intros [Hd (r1 & Hs1 & Ha1)] [Hd' (r2 & Hs2 & Ha2)].
  split; [congruence|]. exists (r1 ++ r2).
  split; [rewrite Hs2, Hs1; now rewrite app_assoc|].
  apply Forall_app. split; [exact Ha1|].
  apply Forall_impl with (2 := Ha2). intros r ->.
  unfold sending_client. now rewrite Hd.
Qed.

Lemma step_send (w : World) (c : Command) :
  same_client_step w (snd (ddbDocClient_send c w)).
Proof.
  destruct (send_world c w) as (r & st & _ & E). rewrite E. apply step_request.
Qed.

Ltac by_step_send :=
  match goal with
  | |- same_client_step ?w (snd (ddbDocClient_send ?c ?w)) => exact (step_send w c)
  end.

Lemma step_bind_send {A} (c : Command) (k : OutputOf c -> Async A) (w : World) :
  (forall x w', snd (k x w') = w') ->
  same_client_step w (snd ((x <- ddbDocClient_send c ;; k x) w)).
Proof.
  intros Hk. rewrite (bind_send_world c k w Hk). apply step_send.
Qed.

Lemma step_insertOrUpdate tableName pk (item : JsObject) sk (w : World) :
  same_client_step w (snd (insertOrUpdate tableName pk item sk w)).
Proof.
  destruct (has_key_dec pk sk item) as [Hk|Hk].
  - destruct (filter (kept pk sk) (Object_keys item)) as [|k0 ks] eqn:Ef.
    + apply only_keys_iff in Ef.
      rewrite (insertOrUpdate_keys_only tableName pk item sk w Hk Ef). by_step_send.
    + assert (Hne : filter (kept pk sk) (Object_keys item) <> [])
        by (rewrite Ef; discriminate).
      destruct (marshall
        (reduce (fun accumulator k index =>
                   prop_set accumulator (value_placeholder index) (js_get item k))
                (filter (kept pk sk) (Object_keys item)) [])
        (Some {| convertEmptyValues := None;
                 removeUndefinedValues := Some true;
                 convertClassInstanceToMap := None |})) as [e|values] eqn:Em.
      * rewrite (insertOrUpdate_marshall_fails tableName pk item sk w e Hk Hne Em).
        apply step_refl.
      * rewrite (insertOrUpdate_with_fields tableName pk item sk w values Hk Hne Em).
        by_step_send.
  - rewrite (insertOrUpdate_no_key tableName pk item sk w Hk). apply step_refl.
Qed.

Lemma step_perform (c : Call) (w : World) : same_client_step w (perform c w).
Proof.
  destruct c; simpl;
    try (split; [reflexivity|]; exists []; simpl; rewrite app_nil_r;
         split; [reflexivity | constructor]).
  - apply step_insertOrUpdate.
  - unfold deleteOne.
    exact (step_send w (DeleteItemCommand {| d_TableName := tableName;
                                            d_Key := [(pk, AttrS pkValue)] |})).
  - unfold findOne. apply step_bind_send.
    intros x w'. destruct (no_items (q_Items x)); [reflexivity|].
    destruct (q_Items x) as [[|first rest]|]; reflexivity.
  - unfold findMany. apply step_bind_send.
    intros x w'. destruct (q_Items x) as [l|]; [|reflexivity].
    destruct (Nat.eqb (length l) 0); reflexivity.
  - unfold findManyByField. apply step_bind_send.
    intros x w'. apply decode_items_world.
  - unfold findManyPlain. apply step_bind_send.
    intros x w'. apply decode_items_world.
  - destruct (findOperated_cases tableName filter operators w) as [[e E]|[c E]].
    + rewrite E. apply step_refl.
    + rewrite E. apply step_bind_send. intros x w'. apply decode_items_world.
  - unfold findWithin. apply step_bind_send.
    intros x w'. apply decode_items_world.
  - destruct (next_cases g w)
      as [[_ E]|(p & r & st & _ & _ & [[e E]|(out & batch & _ & E & _)])]; rewrite E.
    + apply step_refl.
    + apply step_console, step_request.
    + apply step_request.
Qed.

Lemma step_run (calls : list Call) (w : World) : same_client_step w (run calls w).
Proof.
  revert w. induction calls as [|c calls IH]; intros w; simpl.
  - apply step_refl.
  - apply step_trans with (w2 := perform c w); [apply step_perform | apply IH].
Qed.

(** C2, as the code runs.  Every request of a run goes out through the
    client built when the modules were loaded: calls to the setters
    replace [ddbClient], and the requests issued after them still carry the
    region of the environment and no credentials. *)
Theorem requests_keep_the_first_client
  (env_REGION env_KEY env_SECRET : option string) (st : Store) (calls : list Call)
  (r tableName pk : string) (pkValue : JsValue) :
  let w := run calls (load_modules env_REGION env_KEY env_SECRET st) in
  let first := {| region := env_REGION; credentials := None |} in
  Forall (fun request => fst request = first) (sent w)
  /\ ddbClient (setRegion r w) = {| region := Some r; credentials := None |}
  /\ issued (deleteOne tableName pk pkValue) (setRegion r w)
     = [(first,
         DeleteItemCommand {| d_TableName := tableName; d_Key := [(pk, AttrS pkValue)] |})].
Proof.
  intros w first.
  destruct (step_run calls (load_modules env_REGION env_KEY env_SECRET st))
    as [Hd (reqs & Hs & Hall)].
  fold w in Hd, Hs. simpl in Hs. split; [|split].
  - rewrite Hs. exact Hall.
  - reflexivity.
  - transitivity
      [(sending_client (setRegion r w),
        DeleteItemCommand {| d_TableName := tableName; d_Key := [(pk, AttrS pkValue)] |})].
    + exact (issued_send
               (DeleteItemCommand {| d_TableName := tableName;
                                     d_Key := [(pk, AttrS pkValue)] |})
               (setRegion r w)).
    + unfold sending_client. simpl. rewrite Hd. reflexivity.
Qed.

(** ** Positional placeholders *)

Lemma index_to_string_inj i j : index_to_string i = index_to_string j -> i = j.
Proof.
  unfold index_to_string. intros H.
  assert (E : Some (Nat.to_uint i) = Some (Nat.to_uint j)).
  { rewrite <- !NilEmpty.usu. now rewrite H. }
  inversion E as [E']. apply (f_equal Nat.of_uint) in E'.
  now rewrite !Unsigned.of_to in E'.
Qed.

Lemma field_placeholder_inj i j : field_placeholder i = field_placeholder j -> i = j.
Proof.
  unfold field_placeholder. simpl. intros H. inversion H.
  now apply index_to_string_inj.
Qed.

Lemma value_placeholder_inj i j : value_placeholder i = value_placeholder j -> i = j.
Proof.
  unfold value_placeholder. simpl. intros H. inversion H.
  now apply index_to_string_inj.
Qed.

Lemma array_index_not_digit (a : ascii) (rest : string) :
  NilEmpty.uint_of_string (String a EmptyString) = None ->
  array_index (String a rest) = None.
Proof.
  unfold array_index. simpl. unfold uint_of_char at 1.
  destruct (NilEmpty.uint_of_string rest) as [d|]; [|reflexivity].
  unfold uint_of_char.
  destruct a as [[|] [|] [|] [|] [|] [|] [|] [|]]; try reflexivity; discriminate.
Qed.

Lemma field_placeholder_no_index i : array_index (field_placeholder i) = None.
Proof.
  unfold field_placeholder. simpl. now apply array_index_not_digit.
Qed.

Lemma value_placeholder_no_index i : array_index (value_placeholder i) = None.
Proof.
  unfold value_placeholder. simpl. now apply array_index_not_digit.
Qed.

Lemma prop_lookup_absent {V} (o : Obj V) k :
  ~ In k (Object_keys o) -> prop_lookup o k = None.
Proof.
  induction o as [|[k' v'] o IH]; simpl; intros H; [reflexivity|].
  destruct (String.eqb k' k) eqn:E.
  - apply String.eqb_eq in E. exfalso. apply H. now left.
  - apply IH. intros Hin. apply H. now right.
Qed.

Lemma prop_set_fresh {V} (o : Obj V) k v :
  ~ In k (Object_keys o) -> array_index k = None -> prop_set o k v = o ++ [(k, v)].
Proof.
  intros H Hi. unfold prop_set, prop_owns, prop_add.
  now rewrite (prop_lookup_absent o k H), Hi.
Qed.

(** Building an object under placeholders that never repeat and are not
    array indices appends one property per element. *)
Lemma reduce_from_placeholders {A V} (ph : nat -> string) (g : A -> V)
  (l : list A) (i : nat) (acc : Obj V) :
  (forall a b, ph a = ph b -> a = b) ->
  (forall a, array_index (ph a) = None) ->
  (forall j, i <= j -> ~ In (ph j) (Object_keys acc)) ->
  reduce_from i (fun accumulator k index => prop_set accumulator (ph index) (g k)) l acc
  = acc ++ mapi_from i (fun k index => (ph index, g k)) l.
Proof.
  intros Hinj Hidx. revert i acc. induction l as [|x l IH]; intros i acc Hfresh; simpl.
  - now rewrite app_nil_r.
  - rewrite (prop_set_fresh acc (ph i) (g x) (Hfresh i (le_n i)) (Hidx i)).
    rewrite IH.
    + now rewrite <- app_assoc.
    + intros j Hj Hin. unfold Object_keys in Hin. rewrite map_app in Hin.
      apply in_app_or in Hin. destruct Hin as [Hin|[Hin|[]]].
      * apply (Hfresh j); [lia | exact Hin].
      * simpl in Hin. apply Hinj in Hin. lia.
Qed.

Lemma reduce_placeholders {A V} (ph : nat -> string) (g : A -> V) (l : list A) :
  (forall a b, ph a = ph b -> a = b) ->
  (forall a, array_index (ph a) = None) ->
  reduce (fun accumulator k index => prop_set accumulator (ph index) (g k)) l []
  = mapi (fun k index => (ph index, g k)) l.
Proof.
  intros Hinj Hidx. unfold reduce, mapi.
  rewrite (reduce_from_placeholders ph g l 0 [] Hinj Hidx); [reflexivity|].
  intros j _ [].
Qed.

Lemma mapi_from_snd {A V} (ph : nat -> string) (g : A -> V) (l : list A) i :
  map snd (mapi_from i (fun k index => (ph index, g k)) l) = map g l.
Proof.
  revert i. induction l as [|x l IH]; intros i; simpl; [reflexivity|].
  now rewrite IH.
Qed.

Lemma mapi_from_length {A B} (f : A -> nat -> B) (l : list A) i :
  length (mapi_from i f l) = length l.
Proof.
  revert i. induction l as [|x l IH]; intros i; simpl; [reflexivity|].
  now rewrite IH.
Qed.

(** ** More on [insertOrUpdate] *)

(** X1.  With non-key fields and a successful [marshall], the one request of
    [insertOrUpdate] names every non-key field of the item once, in the
    item's order, under [#field0], [#field1], ...; its update expression has
    one clause [#fieldN = :valueN] per such field; and its values are what
    [marshall] makes of [:valueN] bound to the item's value of field [N]. *)
Theorem insertOrUpdate_covers_non_key_fields
  tableName pk (item : JsObject) sk (w : World) values :
  has_key_field pk sk item ->
  non_key_fields pk sk item <> [] ->
  marshall
    (mapi (fun k index => (value_placeholder index, js_get item k))
          (non_key_fields pk sk item))
    (Some {| convertEmptyValues := None;
             removeUndefinedValues := Some true;
             convertClassInstanceToMap := None |}) = inr values ->
  issued (insertOrUpdate tableName pk item sk) w
  = [(sending_client w,
      UpdateItemCommand
        {| u_TableName := tableName;
           u_Key := upsert_key pk sk item;
           u_ReturnValues := Some "ALL_NEW"%string;
           u_UpdateExpression :=
             Some ("SET " ++
                   join ", "
                     (mapi (fun (_ : string) index =>
                              field_placeholder index ++ " = " ++ value_placeholder index)
                           (non_key_fields pk sk item)))%string;
           u_ExpressionAttributeNames :=
             Some (mapi (fun k index => (field_placeholder index, k))
                        (non_key_fields pk sk item));
           u_ExpressionAttributeValues := Some values |})].
Proof.
  unfold non_key_fields. intros Hk Hne Hm.
  rewrite <- (reduce_placeholders value_placeholder (js_get item) _ value_placeholder_inj value_placeholder_no_index)
    in Hm.
  rewrite <- (reduce_placeholders field_placeholder (fun k => k) _ field_placeholder_inj field_placeholder_no_index).
  exact (issued_via_send (insertOrUpdate tableName pk item sk) w _
           (f_equal snd (insertOrUpdate_with_fields tableName pk item sk w values
                           Hk Hne Hm))).
Qed.

(** X2.  Whatever the item, a request of [insertOrUpdate] never names a key
    field in its update: the names it carries are exactly the non-key fields
    of the item, and it carries names, an expression and values only when
    there is such a field. *)
Theorem insertOrUpdate_never_updates_keys
  tableName pk (item : JsObject) sk (w : World) r :
  In r (issued (insertOrUpdate tableName pk item sk) w) ->
  exists p,
    snd r = UpdateItemCommand p
    /\ match u_ExpressionAttributeNames p with
       | Some names =>
           map snd names = non_key_fields pk sk item
           /\ non_key_fields pk sk item <> []
           /\ Forall (fun name => name <> pk /\ sk <> Some name /\ In name (Object_keys item))
                     (map snd names)
       | None =>
           non_key_fields pk sk item = []
           /\ u_UpdateExpression p = None
           /\ u_ExpressionAttributeValues p = None
       end.
Proof.
  unfold non_key_fields.
  destruct (has_key_dec pk sk item) as [Hk|Hk].
  - destruct (filter (kept pk sk) (Object_keys item)) as [|k0 ks] eqn:Ef.
    + pose proof Ef as Ho. apply only_keys_iff in Ho.
      rewrite (issued_via_send (insertOrUpdate tableName pk item sk) w _
                 (f_equal snd (insertOrUpdate_keys_only tableName pk item sk w Hk Ho))).
      intros [<-|[]]. eexists. split; [reflexivity|]. simpl. auto.
    + assert (Hne : filter (kept pk sk) (Object_keys item) <> [])
        by (rewrite Ef; discriminate).
      destruct (marshall
        (reduce (fun accumulator k index =>
                   prop_set accumulator (value_placeholder index) (js_get item k))
                (filter (kept pk sk) (Object_keys item)) [])
        (Some {| convertEmptyValues := None;
                 removeUndefinedValues := Some true;
                 convertClassInstanceToMap := None |})) as [e|values] eqn:Em.
      * rewrite issued_unchanged; [intros []|].
        now rewrite (insertOrUpdate_marshall_fails tableName pk item sk w e Hk Hne Em).
      * rewrite (issued_via_send (insertOrUpdate tableName pk item sk) w _
                   (f_equal snd (insertOrUpdate_with_fields tableName pk item sk w values
                                   Hk Hne Em))).
        intros [<-|[]]. eexists. split; [reflexivity|]. simpl.
        rewrite (reduce_placeholders field_placeholder (fun k => k) _ field_placeholder_inj field_placeholder_no_index).
        unfold mapi. rewrite mapi_from_snd, map_id, Ef.
        split; [reflexivity|]. split; [discriminate|].
        rewrite <- Ef. apply Forall_forall. intros name Hin.
        apply filter_In in Hin. destruct Hin as [Hin Hkept].
        split; [|split; [|exact Hin]].
        -- intros ->. assert (kept pk sk pk = false) by (apply kept_false_iff; now left).
           congruence.
        -- intros ->. assert (kept pk (Some name) name = false)
             by (apply kept_false_iff; now right).
           congruence.
  - rewrite issued_unchanged; [intros []|].
    now rewrite (insertOrUpdate_no_key tableName pk item sk w Hk).
Qed.

(** X3.  An item that has the sort key but not the partition key passes the
    validation of [insertOrUpdate]; the [Key] of every request then sent has
    the partition key, under [S], with what a plain object answers for a
    name it does not own (what it inherits from [Object.prototype], else
    [undefined]), and besides it the sort key with the item's value, unless
    the assignment of the sort key is taken by a setter of the prototype. *)
Theorem insertOrUpdate_without_partition_key
  tableName pk s (item : JsObject) (w : World) :
  In s (Object_keys item) ->
  ~ In pk (Object_keys item) ->
  s <> EmptyString ->
  (forall msg w', insertOrUpdate tableName pk item (Some s) w <> (Throw (JsError msg), w'))
  /\ (forall r, In r (issued (insertOrUpdate tableName pk item (Some s)) w) ->
        exists p,
          snd r = UpdateItemCommand p
          /\ forall kv,
               In kv (u_Key p)
               <-> kv = (pk, AttrS (match Object_prototype pk with
                                    | Some v => v
                                    | None => JUndefined
                                    end))
                   \/ (prototype_setter s = false /\ kv = (s, AttrS (js_get item s)))).
Proof.
  intros Hs Hpk Hne.
  assert (Hk : has_key_field pk (Some s) item).
  { exists s. split; [exact Hs | now right]. }
  assert (Hps : s <> pk) by (intros ->; contradiction).
  assert (Hget : js_get item pk = match Object_prototype pk with
                                  | Some v => v
                                  | None => JUndefined
                                  end).
  { unfold js_get. now rewrite (prop_lookup_absent item pk Hpk). }
  split.
  - intros msg w' E.
    destruct (List.filter (kept pk (Some s)) (Object_keys item)) as [|k0 ks] eqn:Ef.
    + apply only_keys_iff in Ef.
      rewrite (insertOrUpdate_keys_only tableName pk item (Some s) w Hk Ef) in E.
      send_absurd E.
    + assert (Hnf : List.filter (kept pk (Some s)) (Object_keys item) <> [])
        by (rewrite Ef; discriminate).
      destruct (marshall
        (reduce (fun accumulator k index =>
                   prop_set accumulator (value_placeholder index) (js_get item k))
                (List.filter (kept pk (Some s)) (Object_keys item)) [])
        (Some {| convertEmptyValues := None;
                 removeUndefinedValues := Some true;
                 convertClassInstanceToMap := None |})) as [e|values] eqn:Em.
      * rewrite (insertOrUpdate_marshall_fails tableName pk item (Some s) w e Hk Hnf Em)
          in E.
        discriminate.
      * rewrite (insertOrUpdate_with_fields tableName pk item (Some s) w values Hk Hnf Em)
          in E.
        send_absurd E.
  - intros r Hr.
    destruct (insertOrUpdate_issued tableName pk item (Some s) w r Hr)
      as (p & -> & _ & Hp).
    exists p. split; [reflexivity|]. rewrite Hp, <- Hget. intros kv.
    destruct (upsert_key_shape pk (Some s) item)
      as [[E H]|(s' & Hs' & _ & _ & Hset & [E|E])]; rewrite E; simpl.
    + destruct (H s eq_refl) as [H1|[H1|H1]]; [contradiction | contradiction |].
      split.
      * intros [<-|[]]. now left.
      * intros [->|[Hf _]]; [now left | congruence].
    + inversion Hs'; subst s'. split.
      * intros [<-|[<-|[]]]; [now left | right; now split].
      * intros [->|[_ ->]]; auto.
    + inversion Hs'; subst s'. split.
      * intros [<-|[<-|[]]]; [right; now split | now left].
      * intros [->|[_ ->]]; auto.
Qed.

(** ** More on [findOperated] *)

Lemma not_offending_accepted (filter : JsObject) operators k :
  ~ offending filter operators k -> ~ unaccepted filter operators k.
Proof.
  intros H [Ho|Ht]; apply H; [|now right].
  left. unfold no_operator, operator_entry in Ho.
  destruct (prop_lookup operators k); [discriminate | reflexivity].
Qed.

Lemma check_filter_passes (filter : JsObject) operators keys (w : World) :
  (forall k, In k keys -> ~ unaccepted filter operators k) ->
  check_filter filter operators keys w = (Normal tt, w).
Proof.
  induction keys as [|k keys IH]; intros H; simpl; [reflexivity|].
  assert (Hk : ~ unaccepted filter operators k) by (apply H; now left).
  destruct (no_operator operators k) eqn:Eo.
  - exfalso. apply Hk. now left.
  - destruct (negb (JsType_eqb (typeof (js_get filter k)) TString)
              && negb (JsType_eqb (typeof (js_get filter k)) TNumber)) eqn:Et.
    + exfalso. apply Hk. right.
      apply andb_true_iff in Et. destruct Et as [Es En].
      split; intros Ety; rewrite Ety in *; discriminate.
    + apply IH. intros k' Hin. apply H. now right.
Qed.

Lemma check_filter_accepts (filter : JsObject) operators keys (w : World) :
  (forall k, In k keys -> ~ offending filter operators k) ->
  check_filter filter operators keys w = (Normal tt, w).
Proof.
  intros H. apply check_filter_passes.
  intros k Hin. apply not_offending_accepted. now apply H.
Qed.

Lemma check_filter_message (filter : JsObject) operators keys (w w' : World) msg :
  check_filter filter operators keys w = (Throw (JsError msg), w') ->
  exists k,
    In k keys
    /\ ((no_operator operators k = true
         /\ msg = ("Operator for " ++ k ++ " not found")%string)
        \/ (typeof (js_get filter k) <> TString
            /\ typeof (js_get filter k) <> TNumber
            /\ msg = ("Value for " ++ k ++ " is not a string or number")%string)).
Proof.
  induction keys as [|k keys IH]; simpl; intros E.
  - discriminate.
  - destruct (no_operator operators k) eqn:Eo.
    + inversion E. exists k. split; [now left|]. left. now split.
    + destruct (negb (JsType_eqb (typeof (js_get filter k)) TString)
                && negb (JsType_eqb (typeof (js_get filter k)) TNumber)) eqn:Et.
      * inversion E. exists k. split; [now left|]. right.
        apply andb_true_iff in Et. destruct Et as [Es En].
        split; [|split; [|reflexivity]]; intros Ety; rewrite Ety in *; discriminate.
      * destruct (IH E) as (k' & Hin & Hk'). exists k'. split; [now right | exact Hk'].
Qed.

(** An error of its own thrown by [findOperated] comes from the validation
    loop: nothing was sent, and the message names a rejected key. *)
Lemma findOperated_own_error tableName (filter : JsObject) operators (w w' : World) msg :
  findOperated tableName filter operators w = (Throw (JsError msg), w') ->
  w' = w
  /\ exists k,
       In k (Object_keys filter)
       /\ unaccepted filter operators k
       /\ (msg = ("Operator for " ++ k ++ " not found")%string
           \/ msg = ("Value for " ++ k ++ " is not a string or number")%string).
Proof.
  intros E. unfold findOperated in E.
  destruct (check_filter_world filter operators (Object_keys filter) w) as [Ec|[m Ec]].
  - exfalso. rewrite (bind_normal _ _ _ _ _ Ec) in E.
    destruct (marshall
      (reduce (fun accumulator k index =>
                 prop_set accumulator (value_placeholder index) (js_get filter k))
              (Object_keys filter) []) None) as [e|values].
    + discriminate.
    + unfold lift_sdk in E. rewrite (bind_normal _ _ w w values eq_refl) in E.
      unfold bind in E.
      match type of E with
      | context [ddbDocClient_send ?c w] =>
          pose proof (send_not_JsError c w) as Hs;
          destruct (ddbDocClient_send c w) as [[out|e] w1]
      end.
      * unfold decode_items in E.
        destruct (no_items (s_Items out)); [discriminate|].
        destruct (s_Items out) as [l|]; [|discriminate].
        unfold bind, lift_sdk in E.
        destruct (map_throwing unmarshall l); discriminate.
      * inversion E; subst. exact (Hs w' msg eq_refl).
  - rewrite (bind_throw _ _ _ _ _ Ec) in E. injection E as Hm Hw.
    split; [now symmetry|]. rewrite <- Hm.
    destruct (check_filter_message filter operators _ w w m Ec)
      as (k & Hin & [[Ho ->]|(Hs & Hn & ->)]).
    + exists k. split; [exact Hin|]. split; [now left | now left].
    + exists k. split; [exact Hin|]. split; [now right | now right].
Qed.

(** X5.  [findOperated] throws an error of its own exactly when, for some
    key of the value map, the operator map has nothing truthy under that
    name, neither of its own nor inherited from [Object.prototype], or the
    value is neither a string nor a number; the message then names such a
    key, and nothing was sent. *)
Theorem findOperated_validation_exact
  tableName (filter : JsObject) operators (w : World) :
  ((exists msg w', findOperated tableName filter operators w = (Throw (JsError msg), w'))
   <-> exists k, In k (Object_keys filter) /\ unaccepted filter operators k)
  /\ (forall msg w',
        findOperated tableName filter operators w = (Throw (JsError msg), w') ->
        w' = w
        /\ exists k,
             In k (Object_keys filter)
             /\ unaccepted filter operators k
             /\ (msg = ("Operator for " ++ k ++ " not found")%string
                 \/ msg = ("Value for " ++ k ++ " is not a string or number")%string)).
Proof.
  split; [|intros msg w'; apply findOperated_own_error]. split.
  - intros (msg & w' & E).
    destruct (findOperated_own_error _ _ _ _ _ _ E) as (_ & k & Hin & Hoff & _).
    exists k. now split.
  - intros H.
    destruct (check_filter_rejects filter operators (Object_keys filter) w H) as [msg E].
    exists msg, w. unfold findOperated. now rewrite (bind_throw _ _ _ _ _ E).
Qed.

Lemma operator_text_present (operators : Obj Operator) k :
  prop_lookup operators k <> None ->
  exists o, prop_lookup operators k = Some o
            /\ operator_text operators k = Operator_to_string o.
Proof.
  unfold operator_text, operator_entry.
  destruct (prop_lookup operators k) as [o|]; intros H.
  - exists o. now split.
  - now elim H.
Qed.

(** X6.  When no key offends and [marshall] succeeds, [findOperated] issues one
    scan: its names bind [#fieldN] to the [N]th key of the value map, its
    values are what [marshall] makes of [:valueN] bound to the [N]th value,
    and its filter is the conjunction, in the same order, of one comparison
    [#fieldN op :valueN] per key. *)
Theorem findOperated_scan_shape
  tableName (filter : JsObject) operators (w : World) values :
  (forall k, In k (Object_keys filter) -> ~ offending filter operators k) ->
  marshall
    (mapi (fun k index => (value_placeholder index, js_get filter k)) (Object_keys filter))
    None = inr values ->
  issued (findOperated tableName filter operators) w
  = [(sending_client w,
      ScanCommand
        {| s_TableName := tableName;
           s_FilterExpression :=
             Some (join " and "
                     (mapi (fun k index =>
                              field_placeholder index ++ " " ++ operator_text operators k
                              ++ " " ++ value_placeholder index)%string
                           (Object_keys filter)));
           s_ExpressionAttributeNames :=
             Some (mapi (fun k index => (field_placeholder index, k)) (Object_keys filter));
           s_ExpressionAttributeValues := Some values;
           s_Limit := None;
           s_ExclusiveStartKey := None |})]
  /\ length (mapi (fun k index => (field_placeholder index, k)) (Object_keys filter))
     = length filter.
Proof.
  intros Hok Hm. split.
  - rewrite <- (reduce_placeholders value_placeholder (js_get filter) _
                  value_placeholder_inj value_placeholder_no_index) in Hm.
    rewrite <- (reduce_placeholders field_placeholder (fun k => k) _ field_placeholder_inj field_placeholder_no_index).
    apply issued_via_send. unfold findOperated.
    rewrite (bind_normal _ _ _ _ _ (check_filter_accepts filter operators _ w Hok)).
    rewrite Hm. unfold lift_sdk. rewrite (bind_normal _ _ w w values eq_refl).
    apply bind_send_world. intros x w'. apply decode_items_world.
  - unfold mapi, Object_keys. now rewrite mapi_from_length, length_map.
Qed.

(** C6, as the code runs.  A key of the value map for which the operator
    map has no entry of its own is not rejected when a plain object inherits
    something truthy under that name ([constructor], [toString],
    [__proto__], ...): if no key is rejected for another reason and
    [marshall] succeeds, [findOperated] throws no error of its own and
    issues the scan, whose filter has the text of the inherited value where
    the operator should be. *)
Theorem findOperated_accepts_inherited_operator
  tableName (filter : JsObject) operators (w : World) k v values :
  In k (Object_keys filter) ->
  prop_lookup operators k = None ->
  Object_prototype k = Some v ->
  truthy v = true ->
  (forall k', In k' (Object_keys filter) -> ~ unaccepted filter operators k') ->
  marshall
    (mapi (fun k index => (value_placeholder index, js_get filter k)) (Object_keys filter))
    None = inr values ->
  offending filter operators k
  /\ (forall msg w',
        findOperated tableName filter operators w <> (Throw (JsError msg), w'))
  /\ issued (findOperated tableName filter operators) w
     = [(sending_client w,
         ScanCommand
           {| s_TableName := tableName;
              s_FilterExpression :=
                Some (join " and "
                        (mapi (fun k index =>
                                 field_placeholder index ++ " " ++ operator_text operators k
                                 ++ " " ++ value_placeholder index)%string
                              (Object_keys filter)));
              s_ExpressionAttributeNames :=
                Some (mapi (fun k index => (field_placeholder index, k))
                           (Object_keys filter));
              s_ExpressionAttributeValues := Some values;
              s_Limit := None;
              s_ExclusiveStartKey := None |})]
  /\ operator_text operators k = js_to_string v.
Proof.
  intros Hin Hown Hproto Htruthy Hok Hm. split; [now left|]. split; [|split].
  - intros msg w' E.
    destruct (findOperated_own_error _ _ _ _ _ _ E) as (_ & k' & Hin' & Hbad & _).
    exact (Hok k' Hin' Hbad).
  - rewrite <- (reduce_placeholders value_placeholder (js_get filter) _
                  value_placeholder_inj value_placeholder_no_index) in Hm.
    rewrite <- (reduce_placeholders field_placeholder (fun k => k) _
                  field_placeholder_inj field_placeholder_no_index).
    apply issued_via_send. unfold findOperated.
    rewrite (bind_normal _ _ _ _ _ (check_filter_passes filter operators _ w Hok)).
    rewrite Hm. unfold lift_sdk. rewrite (bind_normal _ _ w w values eq_refl).
    apply bind_send_world. intros x w'. apply decode_items_world.
  - unfold operator_text, operator_entry. now rewrite Hown, Hproto.
Qed.

(** X4.  When [marshall] throws, [insertOrUpdate] and [findOperated] reject
    with that error and send nothing. *)
Theorem marshall_failure_sends_nothing
  tableName pk (item filter : JsObject) sk operators (w : World) e :
  (has_key_field pk sk item ->
   non_key_fields pk sk item <> [] ->
   marshall
     (mapi (fun k index => (value_placeholder index, js_get item k))
           (non_key_fields pk sk item))
     (Some {| convertEmptyValues := None;
              removeUndefinedValues := Some true;
              convertClassInstanceToMap := None |}) = inl e ->
   insertOrUpdate tableName pk item sk w = (Throw (SdkThrown e), w))
  /\ ((forall k, In k (Object_keys filter) -> ~ offending filter operators k) ->
      marshall
        (mapi (fun k index => (value_placeholder index, js_get filter k))
              (Object_keys filter))
        None = inl e ->
      findOperated tableName filter operators w = (Throw (SdkThrown e), w)).
Proof.
  split.
  - unfold non_key_fields. intros Hk Hne Hm.
    rewrite <- (reduce_placeholders value_placeholder (js_get item) _
                  value_placeholder_inj value_placeholder_no_index) in Hm.
    exact (insertOrUpdate_marshall_fails tableName pk item sk w e Hk Hne Hm).
  - intros Hok Hm.
    rewrite <- (reduce_placeholders value_placeholder (js_get filter) _
                  value_placeholder_inj value_placeholder_no_index) in Hm.
    unfold findOperated.
    rewrite (bind_normal _ _ _ _ _ (check_filter_accepts filter operators _ w Hok)).
    rewrite Hm. reflexivity.
Qed.

(** ** Failures of the store and of the decoding *)

Lemma failed_send (c : Command) (w : World) e :
  fst (service (sending_client w) c (store w)) = inl e ->
  fst (ddbDocClient_send c w) = Throw (SdkThrown e)
  /\ console (snd (ddbDocClient_send c w)) = console w.
Proof.
  intros H.
  destruct (service (sending_client w) c (store w)) as [r st] eqn:Es.
  simpl in H. subst r. now rewrite (send_fails c w e st Es).
Qed.

Lemma failed_bind_send {A} (c : Command) (k : OutputOf c -> Async A) (w : World) e :
  fst (service (sending_client w) c (store w)) = inl e ->
  fst ((x <- ddbDocClient_send c ;; k x) w) = Throw (SdkThrown e)
  /\ console (snd ((x <- ddbDocClient_send c ;; k x) w)) = console w.
Proof.
  intros H.
  destruct (service (sending_client w) c (store w)) as [r st] eqn:Es.
  simpl in H. subst r.
  now rewrite (bind_throw _ _ _ _ _ (send_fails c w e st Es)).
Qed.

(** A call that is one send followed by a tail that leaves the world alone
    rejects with the error of the store. *)
Lemma rejected_by_store {A} (m : Async A) (c : Command) (k : OutputOf c -> Async A)
  (w : World) e :
  m w = (x <- ddbDocClient_send c ;; k x) w ->
  (forall x w', snd (k x w') = w') ->
  request_failed m w e ->
  fst (m w) = Throw (SdkThrown e) /\ console (snd (m w)) = console w.
Proof.
  intros Em Hk (c' & Hi & Hf).
  assert (Hi' : issued m w = [(sending_client w, c)]).
  { apply issued_via_send. rewrite Em. now apply bind_send_world. }
  rewrite Hi' in Hi. inversion Hi; subst c'.
  rewrite Em. now apply failed_bind_send.
Qed.

Lemma send_as_bind (c : Command) (w : World) :
  ddbDocClient_send c w = (x <- ddbDocClient_send c ;; ret x) w.
Proof.
  unfold bind, ret. now destruct (ddbDocClient_send c w) as [[out|e] w'].
Qed.

(** X7.  When the store fails the request of a call, the call rejects with the
    error of the store, unchanged, and writes nothing to the console: so do
    [insertOrUpdate], [deleteOne], [findOne], [findMany], [findManyByField],
    [findManyPlain], [findOperated] and [findWithin]. *)
Theorem store_errors_propagate
  tableName pk field key filterExpression (item filter : JsObject) sk
  (pkValue value : JsValue) (values : AttrMap) operators (start end_ : number)
  (w : World) e :
  (request_failed (insertOrUpdate tableName pk item sk) w e ->
   fst (insertOrUpdate tableName pk item sk w) = Throw (SdkThrown e)
   /\ console (snd (insertOrUpdate tableName pk item sk w)) = console w)
  /\ (request_failed (deleteOne tableName pk pkValue) w e ->
      fst (deleteOne tableName pk pkValue w) = Throw (SdkThrown e)
      /\ console (snd (deleteOne tableName pk pkValue w)) = console w)
  /\ (request_failed (findOne tableName pk pkValue) w e ->
      fst (findOne tableName pk pkValue w) = Throw (SdkThrown e)
      /\ console (snd (findOne tableName pk pkValue w)) = console w)
  /\ (request_failed (findMany tableName pk pkValue) w e ->
      fst (findMany tableName pk pkValue w) = Throw (SdkThrown e)
      /\ console (snd (findMany tableName pk pkValue w)) = console w)
  /\ (request_failed (findManyByField tableName field value) w e ->
      fst (findManyByField tableName field value w) = Throw (SdkThrown e)
      /\ console (snd (findManyByField tableName field value w)) = console w)
  /\ (request_failed (findManyPlain tableName filterExpression values) w e ->
      fst (findManyPlain tableName filterExpression values w) = Throw (SdkThrown e)
      /\ console (snd (findManyPlain tableName filterExpression values w)) = console w)
  /\ (request_failed (findOperated tableName filter operators) w e ->
      fst (findOperated tableName filter operators w) = Throw (SdkThrown e)
      /\ console (snd (findOperated tableName filter operators w)) = console w)
  /\ (request_failed (findWithin tableName key start end_) w e ->
      fst (findWithin tableName key start end_ w) = Throw (SdkThrown e)
      /\ console (snd (findWithin tableName key start end_ w)) = console w).
Proof.
  assert (Hnone : forall A (m : Async A), snd (m w) = w -> ~ request_failed m w e).
  { intros A m Hw (c & Hi & _). rewrite (issued_unchanged m w Hw) in Hi. discriminate. }
  repeat match goal with |- _ /\ _ => split end.
  - intros Hf.
    destruct (has_key_dec pk sk item) as [Hk|Hk].
    + destruct (List.filter (kept pk sk) (Object_keys item)) as [|k0 ks] eqn:Ef.
      * apply only_keys_iff in Ef.
        pose proof (insertOrUpdate_keys_only tableName pk item sk w Hk Ef) as E.
        rewrite send_as_bind in E.
        exact (rejected_by_store _ _ _ w e E (fun x w' => eq_refl) Hf).
      * assert (Hne : List.filter (kept pk sk) (Object_keys item) <> [])
          by (rewrite Ef; discriminate).
        destruct (marshall
          (reduce (fun accumulator k index =>
                     prop_set accumulator (value_placeholder index) (js_get item k))
                  (List.filter (kept pk sk) (Object_keys item)) [])
          (Some {| convertEmptyValues := None;
                   removeUndefinedValues := Some true;
                   convertClassInstanceToMap := None |})) as [e'|vs] eqn:Em.
        -- exfalso. apply (Hnone _ (insertOrUpdate tableName pk item sk)); [|exact Hf].
           now rewrite (insertOrUpdate_marshall_fails tableName pk item sk w e' Hk Hne Em).
        -- pose proof (insertOrUpdate_with_fields tableName pk item sk w vs Hk Hne Em) as E.
           rewrite send_as_bind in E.
           exact (rejected_by_store _ _ _ w e E (fun x w' => eq_refl) Hf).
    + exfalso. apply (Hnone _ (insertOrUpdate tableName pk item sk)); [|exact Hf].
      now rewrite (insertOrUpdate_no_key tableName pk item sk w Hk).
  - intros Hf.
    assert (E : deleteOne tableName pk pkValue w
                = (x <- ddbDocClient_send
                          (DeleteItemCommand {| d_TableName := tableName;
                                                d_Key := [(pk, AttrS pkValue)] |}) ;;
                   ret x) w).
    { exact (send_as_bind (DeleteItemCommand {| d_TableName := tableName;
                                                d_Key := [(pk, AttrS pkValue)] |}) w). }
    exact (rejected_by_store _ _ _ w e E (fun x w' => eq_refl) Hf).
  - apply (rejected_by_store (findOne tableName pk pkValue) _ _ w e eq_refl).
    intros x w'. destruct (no_items (q_Items x)); [reflexivity|].
    destruct (q_Items x) as [[|first rest]|]; reflexivity.
  - apply (rejected_by_store (findMany tableName pk pkValue) _ _ w e eq_refl).
    intros x w'. destruct (q_Items x) as [l|]; [|reflexivity].
    destruct (Nat.eqb (length l) 0); reflexivity.
  - apply (rejected_by_store (findManyByField tableName field value) _ _ w e eq_refl).
    intros x w'. apply decode_items_world.
  - apply (rejected_by_store (findManyPlain tableName filterExpression values) _ _ w e
             eq_refl).
    intros x w'. apply decode_items_world.
  - intros Hf.
    destruct (findOperated_cases tableName filter operators w) as [[e' E]|[c E]].
    + exfalso. apply (Hnone _ (findOperated tableName filter operators)); [|exact Hf].
      now rewrite E.
    + apply (rejected_by_store _ _ _ w e E); [|exact Hf].
      intros x w'. apply decode_items_world.
  - apply (rejected_by_store (findWithin tableName key start end_) _ _ w e eq_refl).
    intros x w'. apply decode_items_world.
Qed.

Lemma map_throwing_fails {A B} (f : A -> SdkError + B) (pre post : list A) bad e :
  Forall (fun x => exists y, f x = inr y) pre ->
  f bad = inl e ->
  map_throwing f (pre ++ bad :: post) = inl e.
Proof.
  induction 1 as [|x pre [y Hy] _ IH]; intros Hb; simpl.
  - now rewrite Hb.
  - rewrite Hy. now rewrite (IH Hb).
Qed.

Lemma decode_items_fails (items : list AttrMap) (w : World) e :
  decoding_fails items e ->
  decode_items (Some items) w = (Throw (SdkThrown e), w).
Proof.
  intros (pre & bad & post & -> & Hpre & Hbad).
  unfold decode_items.
  assert (Hn : no_items (Some (pre ++ bad :: post)) = false).
  { destruct pre; reflexivity. }
  rewrite Hn. unfold bind, lift_sdk.
  now rewrite (map_throwing_fails unmarshall pre post bad e Hpre Hbad).
Qed.

(** X8.  When the store answers a scan with items and one of them fails to
    decode, [findManyByField], [findManyPlain] and [findWithin] reject with
    the error of the first such item; the request had gone out, and no item
    is returned. *)
Theorem decoding_errors_propagate
  tableName field key filterExpression (value : JsValue) (values : AttrMap)
  (start end_ : number) (w : World) e items :
  decoding_fails items e ->
  (forall out st,
     service (sending_client w)
       (ScanCommand
          {| s_TableName := tableName;
             s_FilterExpression := Some (field ++ " = :u")%string;
             s_ExpressionAttributeNames := None;
             s_ExpressionAttributeValues := Some [(":u"%string, AttrS value)];
             s_Limit := None;
             s_ExclusiveStartKey := None |}) (store w) = (inr out, st) ->
     s_Items out = Some items ->
     fst (findManyByField tableName field value w) = Throw (SdkThrown e))
  /\ (forall out st,
        service (sending_client w)
          (ScanCommand
             {| s_TableName := tableName;
                s_FilterExpression := Some filterExpression;
                s_ExpressionAttributeNames := None;
                s_ExpressionAttributeValues := Some values;
                s_Limit := None;
                s_ExclusiveStartKey := None |}) (store w) = (inr out, st) ->
        s_Items out = Some items ->
        fst (findManyPlain tableName filterExpression values w) = Throw (SdkThrown e))
  /\ (forall out st,
        service (sending_client w)
          (ScanCommand (findWithin_scan tableName key start end_)) (store w)
        = (inr out, st) ->
        s_Items out = Some items ->
        fst (findWithin tableName key start end_ w) = Throw (SdkThrown e)).
Proof.
  intros Hd. split; [|split]; intros out st Es Hi.
  - unfold findManyByField. send_answered Es. rewrite Hi.
    now rewrite (decode_items_fails items _ e Hd).
  - unfold findManyPlain. send_answered Es. rewrite Hi.
    now rewrite (decode_items_fails items _ e Hd).
  - unfold findWithin_scan in Es. unfold findWithin. send_answered Es. rewrite Hi.
    now rewrite (decode_items_fails items _ e Hd).
Qed.

(** X9.  When the store answers with items, [findManyByField] and
    [findManyPlain] return them decoded by [unmarshall], one object per item
    and in the order of the answer; [findManyPlain] sends the caller's
    filter expression and values as they are. *)
Theorem field_and_plain_scans_decode
  tableName field filterExpression (value : JsValue) (values : AttrMap)
  (w : World) items decoded :
  Forall2 (fun raw obj => unmarshall raw = inr obj) items decoded ->
  (forall out st,
     service (sending_client w)
       (ScanCommand
          {| s_TableName := tableName;
             s_FilterExpression := Some (field ++ " = :u")%string;
             s_ExpressionAttributeNames := None;
             s_ExpressionAttributeValues := Some [(":u"%string, AttrS value)];
             s_Limit := None;
             s_ExclusiveStartKey := None |}) (store w) = (inr out, st) ->
     s_Items out = Some items ->
     fst (findManyByField tableName field value w) = Normal (JArray (map JObject decoded)))
  /\ (forall out st,
        service (sending_client w)
          (ScanCommand
             {| s_TableName := tableName;
                s_FilterExpression := Some filterExpression;
                s_ExpressionAttributeNames := None;
                s_ExpressionAttributeValues := Some values;
                s_Limit := None;
                s_ExclusiveStartKey := None |}) (store w) = (inr out, st) ->
        s_Items out = Some items ->
        fst (findManyPlain tableName filterExpression values w)
        = Normal (JArray (map JObject decoded)))
  /\ issued (findManyPlain tableName filterExpression values) w
     = [(sending_client w,
         ScanCommand
           {| s_TableName := tableName;
              s_FilterExpression := Some filterExpression;
              s_ExpressionAttributeNames := None;
              s_ExpressionAttributeValues := Some values;
              s_Limit := None;
              s_ExclusiveStartKey := None |})]
  /\ length decoded = length items.
Proof.
  intros Hd. split; [|split; [|split]].
  - intros out st Es Hi. unfold findManyByField. send_answered Es. rewrite Hi.
    now rewrite (decode_items_decoded items decoded).
  - intros out st Es Hi. unfold findManyPlain. send_answered Es. rewrite Hi.
    now rewrite (decode_items_decoded items decoded).
  - apply findManyPlain_issued.
  - symmetry. exact (Forall2_same_length _ _ _ Hd).
Qed.

(** X10.  [findOne] and [findMany] always issue the same single query, with
    the key condition [pk = :u], [:u] bound to the given value and nothing
    else, and leave the same world; when the answer is not empty, [findMany]
    returns every item in the order of the answer, and [findOne] the first
    of them. *)
Theorem findOne_is_head_of_findMany tableName pk (pkValue : JsValue) (w : World) :
  issued (findOne tableName pk pkValue) w
  = [(sending_client w,
      QueryCommand
        {| q_TableName := tableName;
           q_KeyConditionExpression := (pk ++ " = :u")%string;
           q_ExpressionAttributeValues := [(":u"%string, pkValue)] |})]
  /\ issued (findMany tableName pk pkValue) w = issued (findOne tableName pk pkValue) w
  /\ snd (findOne tableName pk pkValue w) = snd (findMany tableName pk pkValue w)
  /\ (forall out st first rest,
        service (sending_client w) (findOne_query tableName pk pkValue) (store w)
        = (inr out, st) ->
        q_Items out = Some (first :: rest) ->
        fst (findMany tableName pk pkValue w)
        = Normal (JArray (map JObject (first :: rest)))
        /\ fst (findOne tableName pk pkValue w) = Normal (JObject first)).
Proof.
  split; [apply findOne_issued|]. split; [|split].
  - now rewrite findOne_issued, findMany_issued.
  - unfold findOne, findMany. rewrite !bind_send_world; [reflexivity| |].
    + intros x w'. destruct (q_Items x) as [l|]; [|reflexivity].
      destruct (Nat.eqb (length l) 0); reflexivity.
    + intros x w'. destruct (no_items (q_Items x)); [reflexivity|].
      destruct (q_Items x) as [[|first rest]|]; reflexivity.
  - intros out st first rest Es Hi. unfold findOne_query in Es. split.
    + unfold findMany. send_answered Es. now rewrite Hi.
    + unfold findOne. send_answered Es. now rewrite Hi.
Qed.

(** ** More on the generator of [findAll] *)

(** X11.  A turn issues at most one scan: the one announced by [next_request],
    or none when the generator is completed or its last page came without a
    continuation token.  The first turn after [findAll(tableName, limit)]
    always scans, from the start of the table, with the batch size asked for
    (10 when none is given). *)
Theorem one_scan_per_turn tableName (limit : option nat) (g : Generator) (w : World) :
  issued (next g) w
  = match next_request g with
    | Some p => [(sending_client w, ScanCommand p)]
    | None => []
    end
  /\ (next_request g = None -> next g w = (Normal (IterDone, GenCompleted), w))
  /\ issued (next (findAll tableName limit)) w
     = [(sending_client w,
         ScanCommand
           {| s_TableName := tableName;
              s_FilterExpression := None;
              s_ExpressionAttributeNames := None;
              s_ExpressionAttributeValues := None;
              s_Limit := Some (batch_size limit);
              s_ExclusiveStartKey := None |})].
Proof.
  assert (H : forall g' : Generator,
            issued (next g') w
            = match next_request g' with
              | Some p => [(sending_client w, ScanCommand p)]
              | None => []
              end).
  { intros g'.
    destruct (next_cases g' w)
      as [[Er E]|(p & r & st & Er & _ & [[e E]|(out & batch & _ & E & _)])];
      rewrite Er; unfold issued; rewrite E; simpl.
    - apply skipn_all.
    - apply skipn_length_app.
    - apply skipn_length_app. }
  split; [apply H|]. split.
  - intros Er. apply next_normal. now apply resume_no_request.
  - rewrite H. reflexivity.
Qed.

(** X12.  A page without items is still yielded, as an empty batch, and the
    generator is not completed by it: whether it goes on depends on the
    continuation token alone. *)
Theorem empty_page_is_yielded (g : Generator) (w : World) p out st :
  next_request g = Some p ->
  service (sending_client w) (ScanCommand p) (store w) = (inr out, st) ->
  empty_result (s_Items out) ->
  next g w
  = (Normal (IterValue [], GenYielded p out),
     log_request (sending_client w) (ScanCommand p) st w)
  /\ next_request (GenYielded p out)
     = match s_LastEvaluatedKey out with
       | Some k => Some (continue_from p k)
       | None => None
       end.
Proof.
  intros Er Es He. split.
  - apply next_normal. rewrite (resume_request g p w Er).
    unfold scan_page. send_answered Es.
    now rewrite (no_items_empty _ He).
  - simpl. now destruct (s_LastEvaluatedKey out).
Qed.

(** X13.  When an item of a page fails to decode, the turn does not throw: the
    error is written to the console, the whole page is dropped (nothing is
    yielded from it), and the generator is completed even if the page came
    with a continuation token. *)
Theorem findAll_drops_undecodable_page (g : Generator) (w : World) p out st items e :
  next_request g = Some p ->
  service (sending_client w) (ScanCommand p) (store w) = (inr out, st) ->
  s_Items out = Some items ->
  decoding_fails items e ->
  next g w
  = (Normal (IterDone, GenCompleted),
     log_console (SdkThrown e) (log_request (sending_client w) (ScanCommand p) st w)).
Proof.
  intros Er Es Hi (pre & bad & post & -> & Hpre & Hbad).
  apply next_caught. rewrite (resume_request g p w Er).
  unfold scan_page. send_answered Es. rewrite Hi.
  assert (Hn : no_items (Some (pre ++ bad :: post)) = false) by (destruct pre; reflexivity).
  rewrite Hn. unfold bind, lift_sdk.
  now rewrite (map_throwing_fails unmarshall pre post bad e Hpre Hbad).
Qed.

Lemma consume_counts (fuel : nat) (g : Generator) (w w' : World) batches done :
  consume fuel g w = (Normal (batches, done), w') ->
  exists reqs logs,
    sent w' = sent w ++ reqs
    /\ console w' = console w ++ logs
    /\ length reqs = length batches + length logs
    /\ length logs <= 1
    /\ length batches <= fuel
    /\ (done = false -> logs = [] /\ length batches = fuel).
Proof.
  revert g w w' batches done.
  induction fuel as [|fuel IH]; intros g w w' batches done E; simpl in E.
  - inversion E; subst. exists [], []. rewrite !app_nil_r. simpl. repeat split; lia.
  - destruct (next_cases g w)
      as [[_ En]|(p & r & st & _ & _ & [[e En]|(out & batch & _ & En & _)])];
      rewrite (bind_normal _ _ _ _ _ En) in E.
    + inversion E; subst. exists [], []. rewrite !app_nil_r. simpl.
      repeat split; try lia; discriminate.
    + inversion E; subst. eexists [_], [_]. simpl.
      repeat split; try lia; discriminate.
    + destruct (consume_never_throws fuel (GenYielded p out)
                  (log_request (sending_client w) (ScanCommand p) st w))
        as (bs & d & w2 & Ec).
      rewrite (bind_normal _ _ _ _ _ Ec) in E. inversion E; subst.
      destruct (IH _ _ _ _ _ Ec) as (reqs & logs & Hs & Hc & Hlen & Hlogs & Hfuel & Hdone).
      exists ((sending_client w, ScanCommand p) :: reqs), logs.
      rewrite Hs, Hc. simpl. rewrite <- app_assoc. simpl.
      repeat split; try lia; destruct (Hdone H); [assumption | lia].
Qed.

(** X14.  Consuming a generator for at most [fuel] turns costs one scan per
    batch received, plus one for the turn that failed, if one did; at most
    one error is written to the console, and it ends the sequence; at most
    [fuel] batches are received, and exactly [fuel], without any error, when
    the generator has not said [done]. *)
Theorem one_scan_per_batch (fuel : nat) (g : Generator) (w w' : World) batches done :
  consume fuel g w = (Normal (batches, done), w') ->
  exists logs,
    console w' = console w ++ logs
    /\ length logs <= 1
    /\ length (issued (consume fuel g) w) = length batches + length logs
    /\ length batches <= fuel
    /\ (done = false -> logs = [] /\ length batches = fuel).
Proof.
  intros E. destruct (consume_counts fuel g w w' batches done E)
    as (reqs & logs & Hs & Hc & Hlen & Hlogs & Hfuel & Hdone).
  assert (Hi : issued (consume fuel g) w = reqs).
  { unfold issued. rewrite E. simpl. rewrite Hs. apply skipn_length_app. }
  exists logs. rewrite Hi. auto.
Qed.

(** ** The setters of [dynamodb-client.ts] *)

(** X16.  In the revision that keeps the credentials, [setRegion] and
    [setAccessKey] remember each other's setting: in either order the client
    is rebuilt with the last region and the last keys, and the two calls
    leave the same module state. *)
Theorem setRegion_setAccessKey_commute (r : string) (accessKey : Credentials) (w : World) :
  setRegion_with_keys r (setAccessKey accessKey w)
  = setAccessKey accessKey (setRegion_with_keys r w)
  /\ ddbClient (setRegion_with_keys r (setAccessKey accessKey w))
     = {| region := Some r;
          credentials :=
            Some {| accessKeyId := accessKeyId accessKey;
                    secretAccessKey := secretAccessKey accessKey |} |}.
Proof.
  split; reflexivity.
Qed.

(** X17.  [setConfig] does not store the keys it is given: a later [setRegion]
    rebuilds the client with the keys kept in the module variables, those
    of the environment or of the last [setAccessKey].  [setConfig] without
    region keeps the current region, and with a region it records it. *)
Theorem setConfig_keys_are_not_kept
  (r : string) (reg : option string) (accessKey : Credentials) (w : World) :
  ddbClient (setRegion_with_keys r (setConfig accessKey reg w))
  = ddbClient (setRegion_with_keys r w)
  /\ credentials (ddbClient (setRegion_with_keys r (setConfig accessKey reg w)))
     = Some {| accessKeyId := AWS_ACCESS_KEY_ID w;
               secretAccessKey := AWS_SECRET_ACCESS_KEY w |}
  /\ ddbClient (setConfig accessKey None w)
     = {| region := DynamoDB_REGION w; credentials := Some accessKey |}
  /\ ddbClient (setConfig accessKey None (setConfig accessKey (Some r) w))
     = {| region := Some r; credentials := Some accessKey |}.
Proof.
  repeat split.
Qed.

(** ** What a call leaves alone *)

Lemma bind_send_shape {A} (c : Command) (k : OutputOf c -> Async A) (w : World) :
  (forall x w', snd (k x w') = w') ->
  exists st, snd ((x <- ddbDocClient_send c ;; k x) w)
             = log_request (sending_client w) c st w.
Proof.
  intros Hk. rewrite (bind_send_world c k w Hk).
  destruct (send_world c w) as (r & st & _ & E). now exists st.
Qed.

(** The world after a facade call: untouched, or with one request logged,
    or, for a turn of a generator only, with one request and one console
    line logged. *)
Lemma perform_world (c : Call) (w : World) :
  is_setter c = false ->
  perform c w = w
  \/ (exists q st, perform c w = log_request (sending_client w) q st w)
  \/ (is_turn c = true
      /\ exists q st e,
           perform c w = log_console e (log_request (sending_client w) q st w)).
Proof.
  destruct c; simpl; try discriminate; intros _.
  - destruct (has_key_dec pk sk item) as [Hk|Hk].
    + destruct (List.filter (kept pk sk) (Object_keys item)) as [|k0 ks] eqn:Ef.
      * apply only_keys_iff in Ef.
        rewrite (insertOrUpdate_keys_only tableName pk item sk w Hk Ef).
        right. left.
        match goal with
        | |- context [ddbDocClient_send ?c w] =>
            destruct (send_world c w) as (r & st & _ & E); exists c, st; exact E
        end.
      * assert (Hne : List.filter (kept pk sk) (Object_keys item) <> [])
          by (rewrite Ef; discriminate).
        destruct (marshall
          (reduce (fun accumulator k index =>
                     prop_set accumulator (value_placeholder index) (js_get item k))
                  (List.filter (kept pk sk) (Object_keys item)) [])
          (Some {| convertEmptyValues := None;
                   removeUndefinedValues := Some true;
                   convertClassInstanceToMap := None |})) as [e'|vs] eqn:Em.
        -- left.
           now rewrite (insertOrUpdate_marshall_fails tableName pk item sk w e' Hk Hne Em).
        -- rewrite (insertOrUpdate_with_fields tableName pk item sk w vs Hk Hne Em).
           right. left.
           match goal with
           | |- context [ddbDocClient_send ?c w] =>
               destruct (send_world c w) as (r & st & _ & E); exists c, st; exact E
           end.
    + left. now rewrite (insertOrUpdate_no_key tableName pk item sk w Hk).
  - right. left.
    destruct (send_world (DeleteItemCommand {| d_TableName := tableName;
                                              d_Key := [(pk, AttrS pkValue)] |}) w)
      as (r & st & _ & E).
    eexists _, st. exact E.
  - right. left. unfold findOne. eexists. apply bind_send_shape.
    intros x w'. destruct (no_items (q_Items x)); [reflexivity|].
    destruct (q_Items x) as [[|first rest]|]; reflexivity.
  - right. left. unfold findMany. eexists. apply bind_send_shape.
    intros x w'. destruct (q_Items x) as [l|]; [|reflexivity].
    destruct (Nat.eqb (length l) 0); reflexivity.
  - right. left. unfold findManyByField. eexists. apply bind_send_shape.
    intros x w'. apply decode_items_world.
  - right. left. unfold findManyPlain. eexists. apply bind_send_shape.
    intros x w'. apply decode_items_world.
  - destruct (findOperated_cases tableName filter operators w) as [[e E]|[c E]].
    + left. now rewrite E.
    + right. left. rewrite E. eexists. apply bind_send_shape.
      intros x w'. apply decode_items_world.
  - right. left. unfold findWithin. eexists. apply bind_send_shape.
    intros x w'. apply decode_items_world.
  - destruct (next_cases g w)
      as [[_ E]|(p & r & st & _ & _ & [[e E]|(out & batch & _ & E & _)])]; rewrite E.
    + now left.
    + right. right. split; [reflexivity|]. now exists (ScanCommand p), st, e.
    + right. left. now exists (ScanCommand p), st.
Qed.

(** X15.  A facade call sends at most one request and never touches the module
    variables of the client ([ddbClient], the region, the keys) nor the
    document client; apart from a turn of [findAll], it writes nothing to
    the console.  A setter sends nothing and leaves store, log and console
    alone. *)
Theorem calls_leave_configuration_alone (c : Call) (w : World) :
  (is_setter c = false ->
   length (sent (perform c w)) <= S (length (sent w))
   /\ ddbClient (perform c w) = ddbClient w
   /\ ddbDocClient (perform c w) = ddbDocClient w
   /\ DynamoDB_REGION (perform c w) = DynamoDB_REGION w
   /\ AWS_ACCESS_KEY_ID (perform c w) = AWS_ACCESS_KEY_ID w
   /\ AWS_SECRET_ACCESS_KEY (perform c w) = AWS_SECRET_ACCESS_KEY w
   /\ (is_turn c = false -> console (perform c w) = console w))
  /\ (is_setter c = true ->
      sent (perform c w) = sent w
      /\ store (perform c w) = store w
      /\ console (perform c w) = console w
      /\ ddbDocClient (perform c w) = ddbDocClient w).
Proof.
  split.
  - intros Hc.
    destruct (perform_world c w Hc) as [E|[(q & st & E)|(Ht & q & st & e & E)]];
      rewrite E; simpl; try rewrite length_app; simpl;
      repeat split; try lia; try reflexivity.
    intros Hf. congruence.
  - destruct c; simpl; try discriminate; intros _; repeat split.
Qed.

End Properties.

(** * The properties at concrete inputs *)

Import Demo.

#[local] Open Scope list_scope.

(** C1, as stated, fails: for the item [{id: "1"}] and the partition key
    [id], the item has the key field and nothing else, yet no error is
    raised and an update goes out. *)
Lemma key_only_item_is_not_rejected :
  exactly_key_fields "id" None Demo.key_only_item
  /\ fst (insertOrUpdate "T" "id" Demo.key_only_item None (Demo.world Demo.empty_store))
     = Normal {| u_Attributes := None |}
  /\ issued (insertOrUpdate "T" "id" Demo.key_only_item None)
            (Demo.world Demo.empty_store)
     = [(Demo.client0,
         UpdateItemCommand
           {| u_TableName := "T";
              u_Key := [("id"%string, AttrS (JString "1"))];
              u_ReturnValues := Some "ALL_NEW"%string;
              u_UpdateExpression := None;
              u_ExpressionAttributeNames := None;
              u_ExpressionAttributeValues := None |})].
Proof.
  split; [|split].
  - split; [simpl; auto|]. split; [discriminate|].
    intros k [<-|[]]. now left.
  - reflexivity.
  - reflexivity.
Qed.

Lemma insertOrUpdate_key_only_item_is_sent_witness :
  exactly_key_fields "id" (Some "ts"%string) Demo.id_ts_item
  /\ issued (insertOrUpdate "T" "id" Demo.id_ts_item (Some "ts"%string))
            (Demo.world Demo.empty_store)
     = [(Demo.client0,
         UpdateItemCommand
           {| u_TableName := "T";
              u_Key := [("id"%string, AttrS (JString "1"));
                        ("ts"%string, AttrS (JNumber 5%Z))];
              u_ReturnValues := Some "ALL_NEW"%string;
              u_UpdateExpression := None;
              u_ExpressionAttributeNames := None;
              u_ExpressionAttributeValues := None |})].
Proof.
  assert (H : exactly_key_fields "id" (Some "ts"%string) Demo.id_ts_item).
  { split; [simpl; auto|]. split.
    - intros s E. inversion E. simpl. auto.
    - intros k [<-|[<-|[]]]; [now left | now right]. }
  split; [exact H|].
  exact (proj1 (proj2 (insertOrUpdate_key_only_item_is_sent
                         "T" "id" Demo.id_ts_item (Some "ts"%string)
                         (Demo.world Demo.empty_store) H))).
Defined.

Lemma insertOrUpdate_id_name_witness :
  marshall [(":value0"%string, JString "a")] Demo.only_true
  = inr [(":value0"%string, AttrS (JString "a"))]
  /\ issued (insertOrUpdate "T" "id" Demo.id_name_item None)
            (Demo.world Demo.empty_store)
     = [(Demo.client0,
         UpdateItemCommand
           {| u_TableName := "T";
              u_Key := [("id"%string, AttrS (JString "1"))];
              u_ReturnValues := Some "ALL_NEW"%string;
              u_UpdateExpression := Some "SET #field0 = :value0"%string;
              u_ExpressionAttributeNames := Some [("#field0", "name")]%string;
              u_ExpressionAttributeValues :=
                Some [(":value0"%string, AttrS (JString "a"))] |})].
Proof.
  split; [reflexivity|].
  exact (proj2 (insertOrUpdate_id_name "T" (Demo.world Demo.empty_store)
                  [(":value0"%string, AttrS (JString "a"))] eq_refl)).
Defined.

Lemma insertOrUpdate_validation_witness :
  (~ has_key_field "id" None Demo.name_only_item /\ has_key_field "id" None Demo.key_only_item
   /\ only_key_fields "id" None Demo.key_only_item)
  /\ insertOrUpdate "T" "id" Demo.name_only_item None (Demo.world Demo.holding)
     = (Throw (JsError "No partition key is found"), Demo.world Demo.holding)
  /\ exists p,
       issued (insertOrUpdate "T" "id" Demo.key_only_item None) (Demo.world Demo.holding)
       = [(Demo.client0, UpdateItemCommand p)]
       /\ u_UpdateExpression p = None.
Proof.
  assert (Hk : has_key_field "id" None Demo.key_only_item).
  { exists "id"%string. split; [simpl; auto | now left]. }
  assert (Ho : only_key_fields "id" None Demo.key_only_item).
  { intros k [<-|[]]. now left. }
  assert (Hn : ~ has_key_field "id" None Demo.name_only_item).
  { intros (k & [<-|[]] & [E|E]); discriminate. }
  split; [now repeat split|].
  destruct (insertOrUpdate_validation "T" "id" Demo.key_only_item None
              (Demo.world Demo.holding)) as (_ & _ & Hsent).
  destruct (insertOrUpdate_validation "T" "id" Demo.name_only_item None
              (Demo.world Demo.holding)) as (_ & Hthrow & _).
  split; [exact (proj1 (Hthrow Hn)) | exact (proj2 (Hsent Hk Ho))].
Defined.

Lemma empty_results_and_first_item_witness :
  (empty_answered (findOne "T" "id" (JString "1")) (world empty_store)
   /\ fst (findOne "T" "id" (JString "1") (world empty_store)) = Normal JNull)
  /\ (empty_answered (findMany "T" "id" (JString "1")) (world empty_store)
      /\ fst (findMany "T" "id" (JString "1") (world empty_store)) = Normal (JArray []))
  /\ (empty_answered (findManyByField "T" "name" (JString "a")) (world empty_store)
      /\ fst (findManyByField "T" "name" (JString "a") (world empty_store))
         = Normal (JArray []))
  /\ (empty_answered (findManyPlain "T" "age > :a" [(":a"%string, AttrN "3")])
                     (world empty_store)
      /\ fst (findManyPlain "T" "age > :a" [(":a"%string, AttrN "3")] (world empty_store))
         = Normal (JArray []))
  /\ (empty_answered (findOperated "T" age_filter
                                   [("age"%string, OpGt)])
                     (world empty_store)
      /\ fst (findOperated "T" age_filter [("age"%string, OpGt)]
                           (world empty_store))
         = Normal (JArray []))
  /\ (empty_answered (findWithin "T" "age" 1%Z 9%Z) (world empty_store)
      /\ fst (findWithin "T" "age" 1%Z 9%Z (world empty_store)) = Normal (JArray []))
  /\ fst (findOne "T" "id" (JString "1") (world holding)) = Normal (JObject seven).
Proof.
  pose proof (empty_results_and_first_item
                "T" "id" "name" "age" "age > :a" (JString "1") (JString "a")
                [(":a"%string, AttrN "3")] age_filter
                [("age"%string, OpGt)] 1%Z 9%Z (world empty_store))
    as (H1 & H2 & H3 & H4 & H5 & H6 & _ & _).
  pose proof (empty_results_and_first_item
                "T" "id" "name" "age" "age > :a" (JString "1") (JString "a")
                [(":a"%string, AttrN "3")] age_filter
                [("age"%string, OpGt)] 1%Z 9%Z (world holding))
    as (_ & _ & _ & _ & _ & _ & _ & H7).
  assert (Q1 : empty_answered (findOne "T" "id" (JString "1")) (world empty_store)).
  { eexists. split; [reflexivity|]. eexists. split; [reflexivity | now left]. }
  assert (Q2 : empty_answered (findMany "T" "id" (JString "1")) (world empty_store)).
  { eexists. split; [reflexivity|]. eexists. split; [reflexivity | now left]. }
  assert (Q3 : empty_answered (findManyByField "T" "name" (JString "a"))
                              (world empty_store)).
  { eexists. split; [reflexivity|]. eexists. split; [reflexivity | now left]. }
  assert (Q4 : empty_answered (findManyPlain "T" "age > :a" [(":a"%string, AttrN "3")])
                              (world empty_store)).
  { eexists. split; [reflexivity|]. eexists. split; [reflexivity | now left]. }
  assert (Q5 : empty_answered (findOperated "T" age_filter
                                            [("age"%string, OpGt)])
                              (world empty_store)).
  { eexists. split; [reflexivity|]. eexists. split; [reflexivity | now left]. }
  assert (Q6 : empty_answered (findWithin "T" "age" 1%Z 9%Z) (world empty_store)).
  { eexists. split; [reflexivity|]. eexists. split; [reflexivity | now left]. }
  exact (conj (conj Q1 (H1 Q1))
        (conj (conj Q2 (H2 Q2))
        (conj (conj Q3 (H3 Q3))
        (conj (conj Q4 (H4 Q4))
        (conj (conj Q5 (H5 Q5))
        (conj (conj Q6 (H6 Q6))
              (H7 {| q_Items := Some [seven; key_only_item] |} holding seven
                  [key_only_item] eq_refl eq_refl))))))).
Defined.

Lemma findWithin_scans_between_witness :
  (service client0 (ScanCommand (findWithin_scan "T" "age" (-3)%Z 12%Z)) one_page
   = (inr {| s_Items := Some [raw_seven]; s_LastEvaluatedKey := None |}, empty_store)
   /\ Forall2 (fun raw obj => unmarshall raw = inr obj) [raw_seven] [seven])
  /\ issued (findWithin "T" "age" (-3)%Z 12%Z) (world one_page)
     = [(client0,
         ScanCommand
           {| s_TableName := "T";
              s_FilterExpression := Some "age BETWEEN :start AND :end"%string;
              s_ExpressionAttributeNames := None;
              s_ExpressionAttributeValues :=
                Some [(":start"%string, AttrN "-3"); (":end"%string, AttrN "12")];
              s_Limit := None;
              s_ExclusiveStartKey := None |})]
  /\ fst (findWithin "T" "age" (-3)%Z 12%Z (world one_page))
     = Normal (JArray [JObject seven]).
Proof.
  assert (Hd : Forall2 (fun raw obj => unmarshall raw = inr obj) [raw_seven] [seven]).
  { constructor; [reflexivity | constructor]. }
  destruct (findWithin_scans_between "T" "age" (-3)%Z 12%Z (world one_page))
    as [Hreq Hres].
  split; [split; [reflexivity | exact Hd]|]. split; [exact Hreq|].
  exact (Hres {| s_Items := Some [raw_seven]; s_LastEvaluatedKey := None |}
              empty_store [raw_seven] [seven] eq_refl eq_refl Hd).
Defined.

Lemma keys_and_field_values_tagged_S_witness :
  let request :=
    (client0,
     UpdateItemCommand
       {| u_TableName := "T";
          u_Key := [("id"%string, AttrS (JString "1"));
                    ("ts"%string, AttrS (JNumber 5%Z))];
          u_ReturnValues := Some "ALL_NEW"%string;
          u_UpdateExpression := None;
          u_ExpressionAttributeNames := None;
          u_ExpressionAttributeValues := None |}) in
  In request (issued (insertOrUpdate "T" "id" id_ts_item (Some "ts"%string))
                     (world empty_store))
  /\ exists p,
       snd request = UpdateItemCommand p
       /\ Forall (fun kv => key_field "id" (Some "ts"%string) (fst kv)
                            /\ is_S (snd kv) = true
                            /\ snd kv = AttrS (js_get id_ts_item (fst kv)))
                 (u_Key p)
       /\ In "id"%string (Object_keys (u_Key p))
       /\ (forall s, Some "ts"%string = Some s -> s <> EmptyString ->
                     (In s (Object_keys (u_Key p))
                      <-> s = "id"%string \/ prototype_setter s = false)).
Proof.
  intros request.
  assert (H : In request (issued (insertOrUpdate "T" "id" id_ts_item (Some "ts"%string))
                                 (world empty_store))).
  { left. reflexivity. }
  split; [exact H|].
  exact (proj1 (keys_and_field_values_tagged_S
                  "T" "id" "name" id_ts_item (Some "ts"%string)
                  (JNumber 1%Z) (JBoolean true) (world empty_store)) request H).
Defined.

(** With the sort key [__proto__], the assignment to the [Key] is taken by
    the setter of the prototype: the request has the partition key alone. *)
Example sort_key_named_proto :
  issued (insertOrUpdate "T" "name" proto_item (Some "__proto__"%string))
         (world empty_store)
  = [(client0,
      UpdateItemCommand
        {| u_TableName := "T";
           u_Key := [("name"%string, AttrS (JString "a"))];
           u_ReturnValues := Some "ALL_NEW"%string;
           u_UpdateExpression := None;
           u_ExpressionAttributeNames := None;
           u_ExpressionAttributeValues := None |})].
Proof.
  reflexivity.
Qed.

Lemma findAll_swallows_scan_errors_witness :
  (next_request (findAll "T" (Some 2)) = Some (first_scan "T" 2)
   /\ service client0 (ScanCommand (first_scan "T" 2)) failing
      = (inl "throttled"%string, empty_store))
  /\ next (findAll "T" (Some 2)) (world failing)
     = (Normal (IterDone, GenCompleted),
        log_console (SdkThrown "throttled"%string)
          (log_request client0 (ScanCommand (first_scan "T" 2)) empty_store
                       (world failing))).
Proof.
  split; [split; reflexivity|].
  destruct (findAll_swallows_scan_errors (findAll "T" (Some 2)) (world failing))
    as (_ & Hfail & _).
  exact (Hfail (first_scan "T" 2) "throttled"%string empty_store eq_refl eq_refl).
Defined.

(** The scripted store cuts every answer to the [Limit] of the scan. *)
Lemma scripted_store_honours_limit : honours_limit (platform := Demo.platform).
Proof.
  intros client p st out st' items n E Hi Hl.
  simpl in E. unfold scripted_service in E.
  destruct (script st) as [|answer rest].
  - inversion E; subst. discriminate.
  - rewrite Hl in E. destruct answer as [e|o]; simpl in E; inversion E; subst.
    simpl in Hi. destruct (s_Items o) as [l|]; simpl in Hi; inversion Hi; subst.
    apply firstn_le_length.
Qed.

(** C4, as stated, fails: the first page comes with a continuation
    token, the scan for the second page fails, and the generator stops
    although no response came without a token. *)
Lemma findAll_stops_after_a_page_with_token :
  let data := {| s_Items := Some [raw_seven]; s_LastEvaluatedKey := Some raw_seven |} in
  let w1 := log_request client0 (ScanCommand (first_scan "T" 2)) failing
                        (world page_then_failure) in
  next (findAll "T" (Some 2)) (world page_then_failure)
  = (Normal (IterValue [seven], GenYielded (first_scan "T" 2) data), w1)
  /\ s_LastEvaluatedKey data <> None
  /\ fst (next (GenYielded (first_scan "T" 2) data) w1) = Normal (IterDone, GenCompleted)
  /\ fst (consume 5 (findAll "T" (Some 2)) (world page_then_failure))
     = Normal ([[seven]], true).
Proof.
  repeat split; discriminate.
Qed.

Lemma findAll_pages_witness :
  let last_page := {| s_Items := Some [raw_seven]; s_LastEvaluatedKey := None |} in
  let first_page :=
    {| s_Items := Some [raw_seven; raw_seven]; s_LastEvaluatedKey := Some raw_seven |} in
  (honours_limit (platform := Demo.platform)
   /\ consume 5 (findAll "T" (Some 2)) (world two_pages)
      = (Normal ([[seven; seven]; [seven]], true),
         snd (consume 5 (findAll "T" (Some 2)) (world two_pages)))
   /\ s_LastEvaluatedKey first_page = Some raw_seven
   /\ s_LastEvaluatedKey last_page = None)
  /\ Forall (fun batch : list JsObject => length batch <= 2) [[seven; seven]; [seven]]
  /\ issued (next (GenYielded (first_scan "T" 2) first_page)) (world one_page)
     = [(client0, ScanCommand (continue_from (first_scan "T" 2) raw_seven))]
  /\ next (GenYielded (first_scan "T" 2) last_page) (world one_page)
     = (Normal (IterDone, GenCompleted), world one_page).
Proof.
  intros last_page first_page.
  destruct (findAll_pages "T" (Some 2) (world two_pages)) as (_ & Hbatches & Hstop).
  destruct (Hstop (first_scan "T" 2) first_page (world one_page)) as (Hmore & _ & _).
  destruct (Hstop (first_scan "T" 2) last_page (world one_page)) as (_ & Hdone & _).
  split; [split; [exact scripted_store_honours_limit | repeat split]|].
  split; [exact (Hbatches scripted_store_honours_limit 5 _ _ _ eq_refl)|].
  split; [exact (Hmore raw_seven eq_refl) | exact (Hdone eq_refl)].
Defined.

(** The run [setRegion('us-east-1')] then [deleteOne('T', 'id', '1')], with
    [REGION=eu-west-1] in the environment: [ddbClient] is the new client, the
    request went out through the old one. *)
Example setRegion_then_deleteOne :
  let w := run [CallSetRegion "us-east-1"; CallDeleteOne "T" "id" (JString "1")]
               (world empty_store) in
  ddbClient w = {| region := Some "us-east-1"%string; credentials := None |}
  /\ sent w
     = [({| region := Some "eu-west-1"%string; credentials := None |},
         DeleteItemCommand
           {| d_TableName := "T"; d_Key := [("id"%string, AttrS (JString "1"))] |})].
Proof.
  split; reflexivity.
Qed.

(** ** The further properties at concrete inputs *)

Lemma insertOrUpdate_covers_non_key_fields_witness :
  (has_key_field "id" None id_name_age_item
   /\ non_key_fields "id" None id_name_age_item <> []
   /\ marshall
        (mapi (fun k index => (value_placeholder index, js_get id_name_age_item k))
              (non_key_fields "id" None id_name_age_item))
        only_true
      = inr [(":value0"%string, AttrS (JString "a")); (":value1"%string, AttrN "3")])
  /\ issued (insertOrUpdate "T" "id" id_name_age_item None) (world empty_store)
     = [(client0,
         UpdateItemCommand
           {| u_TableName := "T";
              u_Key := [("id"%string, AttrS (JString "1"))];
              u_ReturnValues := Some "ALL_NEW"%string;
              u_UpdateExpression :=
                Some "SET #field0 = :value0, #field1 = :value1"%string;
              u_ExpressionAttributeNames :=
                Some [("#field0", "name"); ("#field1", "age")]%string;
              u_ExpressionAttributeValues :=
                Some [(":value0"%string, AttrS (JString "a"));
                      (":value1"%string, AttrN "3")] |})].
Proof.
  assert (Hk : has_key_field "id" None id_name_age_item).
  { exists "id"%string. split; [simpl; auto | now left]. }
  assert (Hne : non_key_fields "id" None id_name_age_item <> []) by discriminate.
  split; [split; [exact Hk | split; [exact Hne | reflexivity]]|].
  exact (insertOrUpdate_covers_non_key_fields
           "T" "id" id_name_age_item None (world empty_store)
           [(":value0"%string, AttrS (JString "a")); (":value1"%string, AttrN "3")]
           Hk Hne eq_refl).
Defined.

Lemma insertOrUpdate_never_updates_keys_witness :
  In id_name_age_update
     (issued (insertOrUpdate "T" "id" id_name_age_item None) (world empty_store))
  /\ exists p,
       snd id_name_age_update = UpdateItemCommand p
       /\ match u_ExpressionAttributeNames p with
          | Some names =>
              map snd names = non_key_fields "id" None id_name_age_item
              /\ non_key_fields "id" None id_name_age_item <> []
              /\ Forall (fun name => name <> "id"%string /\ None <> Some name
                                     /\ In name (Object_keys id_name_age_item))
                        (map snd names)
          | None =>
              non_key_fields "id" None id_name_age_item = []
              /\ u_UpdateExpression p = None
              /\ u_ExpressionAttributeValues p = None
          end.
Proof.
  assert (H : In id_name_age_update
                 (issued (insertOrUpdate "T" "id" id_name_age_item None)
                         (world empty_store))).
  { left. reflexivity. }
  split; [exact H|].
  exact (insertOrUpdate_never_updates_keys
           "T" "id" id_name_age_item None (world empty_store) id_name_age_update H).
Defined.

Lemma insertOrUpdate_without_partition_key_witness :
  (In "ts"%string (Object_keys ts_name_item)
   /\ ~ In "constructor"%string (Object_keys ts_name_item)
   /\ "ts"%string <> EmptyString)
  /\ issued (insertOrUpdate "T" "constructor" ts_name_item (Some "ts"%string))
            (world empty_store)
     = [(client0,
         UpdateItemCommand
           {| u_TableName := "T";
              u_Key := [("constructor"%string, AttrS (JFunction "Object"));
                        ("ts"%string, AttrS (JNumber 5%Z))];
              u_ReturnValues := Some "ALL_NEW"%string;
              u_UpdateExpression := Some "SET #field0 = :value0"%string;
              u_ExpressionAttributeNames := Some [("#field0", "name")]%string;
              u_ExpressionAttributeValues :=
                Some [(":value0"%string, AttrS (JString "a"))] |})]
  /\ forall r,
       In r (issued (insertOrUpdate "T" "constructor" ts_name_item (Some "ts"%string))
                    (world empty_store)) ->
       exists p,
         snd r = UpdateItemCommand p
         /\ forall kv,
              In kv (u_Key p)
              <-> kv = ("constructor"%string,
                        AttrS (match Object_prototype "constructor" with
                               | Some v => v
                               | None => JUndefined
                               end))
                  \/ (prototype_setter "ts" = false
                      /\ kv = ("ts"%string, AttrS (js_get ts_name_item "ts"))).
Proof.
  assert (H1 : In "ts"%string (Object_keys ts_name_item)) by (simpl; auto).
  assert (H2 : ~ In "constructor"%string (Object_keys ts_name_item)).
  { intros [E|[E|[]]]; discriminate. }
  assert (H3 : "ts"%string <> EmptyString) by discriminate.
  split; [now repeat split|]. split; [reflexivity|].
  exact (proj2 (insertOrUpdate_without_partition_key
                  "T" "constructor" "ts" ts_name_item (world empty_store) H1 H2 H3)).
Defined.

Lemma findOperated_validation_exact_witness :
  findOperated "T" age_name_filter [("age"%string, OpGt)] (world one_page)
  = (Throw (JsError "Operator for name not found"), world one_page)
  /\ exists k,
       In k (Object_keys age_name_filter)
       /\ unaccepted age_name_filter [("age"%string, OpGt)] k
       /\ ("Operator for name not found"%string
           = ("Operator for " ++ k ++ " not found")%string
           \/ "Operator for name not found"%string
              = ("Value for " ++ k ++ " is not a string or number")%string).
Proof.
  assert (E : findOperated "T" age_name_filter [("age"%string, OpGt)] (world one_page)
              = (Throw (JsError "Operator for name not found"), world one_page))
    by reflexivity.
  split; [exact E|].
  exact (proj2 (proj2 (findOperated_validation_exact
                         "T" age_name_filter [("age"%string, OpGt)] (world one_page))
                      "Operator for name not found"%string (world one_page) E)).
Defined.

Lemma findOperated_accepts_inherited_operator_witness :
  (In "constructor"%string (Object_keys constructor_filter)
   /\ prop_lookup ([] : Obj Operator) "constructor" = None
   /\ Object_prototype "constructor" = Some (JFunction "Object")
   /\ truthy (JFunction "Object") = true
   /\ (forall k, In k (Object_keys constructor_filter) ->
                 ~ unaccepted constructor_filter [] k)
   /\ marshall
        (mapi (fun k index => (value_placeholder index, js_get constructor_filter k))
              (Object_keys constructor_filter))
        None
      = inr [(":value0"%string, AttrN "3")])
  /\ fst (findOperated "T" constructor_filter [] (world empty_store))
     = Normal (JArray [])
  /\ issued (findOperated "T" constructor_filter []) (world empty_store)
     = [(client0,
         ScanCommand
           {| s_TableName := "T";
              s_FilterExpression :=
                Some "#field0 function Object() { [native code] } :value0"%string;
              s_ExpressionAttributeNames := Some [("#field0", "constructor")]%string;
              s_ExpressionAttributeValues := Some [(":value0"%string, AttrN "3")];
              s_Limit := None;
              s_ExclusiveStartKey := None |})].
Proof.
  assert (Hok : forall k, In k (Object_keys constructor_filter) ->
                          ~ unaccepted constructor_filter [] k).
  { intros k [<-|[]] [Ho|[Hs Hn]]; [discriminate | now apply Hn]. }
  split.
  { split; [simpl; auto|]. split; [reflexivity|]. split; [reflexivity|].
    split; [reflexivity|]. split; [exact Hok | reflexivity]. }
  split; [reflexivity|].
  exact (proj1 (proj2 (proj2
           (findOperated_accepts_inherited_operator
              "T" constructor_filter [] (world empty_store) "constructor"
              (JFunction "Object") [(":value0"%string, AttrN "3")]
              (or_introl eq_refl) eq_refl eq_refl eq_refl Hok eq_refl)))).
Defined.

Lemma findOperated_scan_shape_witness :
  ((forall k, In k (Object_keys age_name_filter) ->
              ~ offending age_name_filter age_name_operators k)
   /\ marshall
        (mapi (fun k index => (value_placeholder index, js_get age_name_filter k))
              (Object_keys age_name_filter))
        None
      = inr [(":value0"%string, AttrN "3"); (":value1"%string, AttrS (JString "x"))])
  /\ issued (findOperated "T" age_name_filter age_name_operators) (world empty_store)
     = [(client0,
         ScanCommand
           {| s_TableName := "T";
              s_FilterExpression :=
                Some "#field0 > :value0 and #field1 = :value1"%string;
              s_ExpressionAttributeNames :=
                Some [("#field0", "age"); ("#field1", "name")]%string;
              s_ExpressionAttributeValues :=
                Some [(":value0"%string, AttrN "3");
                      (":value1"%string, AttrS (JString "x"))];
              s_Limit := None;
              s_ExclusiveStartKey := None |})].
Proof.
  assert (Hok : forall k, In k (Object_keys age_name_filter) ->
                          ~ offending age_name_filter age_name_operators k).
  { intros k [<-|[<-|[]]] [Ho|[Hs Hn]]; try discriminate.
    - now apply Hn.
    - now apply Hs. }
  split; [split; [exact Hok | reflexivity]|].
  exact (proj1 (findOperated_scan_shape
                  "T" age_name_filter age_name_operators (world empty_store)
                  [(":value0"%string, AttrN "3"); (":value1"%string, AttrS (JString "x"))]
                  Hok eq_refl)).
Defined.

Lemma marshall_failure_sends_nothing_witness :
  let e := "Number is greater than Number.MAX_SAFE_INTEGER. Use BigInt."%string in
  (has_key_field "id" None big_item
   /\ non_key_fields "id" None big_item <> []
   /\ (forall k, In k (Object_keys big_filter) ->
                 ~ offending big_filter [("n"%string, OpLt)] k))
  /\ insertOrUpdate (platform := safe_platform) "T" "id" big_item None safe_world
     = (Throw (platform := safe_platform) (SdkThrown (platform := safe_platform) e),
        safe_world)
  /\ findOperated (platform := safe_platform) "T" big_filter [("n"%string, OpLt)] safe_world
     = (Throw (platform := safe_platform) (SdkThrown (platform := safe_platform) e),
        safe_world).
Proof.
  intros e.
  assert (Hk : has_key_field "id" None big_item).
  { exists "id"%string. split; [simpl; auto | now left]. }
  assert (Hne : non_key_fields "id" None big_item <> []) by discriminate.
  assert (Hok : forall k, In k (Object_keys big_filter) ->
                          ~ offending big_filter [("n"%string, OpLt)] k).
  { intros k [<-|[]] [Ho|[Hs Hn]]; [discriminate | now apply Hn]. }
  destruct (marshall_failure_sends_nothing (platform := safe_platform)
              "T" "id" big_item big_filter None [("n"%string, OpLt)] safe_world e)
    as [Hu Hf].
  split; [now repeat split|].
  split; [exact (Hu Hk Hne eq_refl) | exact (Hf Hok eq_refl)].
Defined.


Lemma store_errors_propagate_witness :
  (offline_failed (insertOrUpdate "T" "id" id_name_item None)
   /\ offline_failed (deleteOne "T" "id" (JString "1"))
   /\ offline_failed (findOne "T" "id" (JString "1"))
   /\ offline_failed (findMany "T" "id" (JString "1"))
   /\ offline_failed (findManyByField "T" "name" (JString "a"))
   /\ offline_failed (findManyPlain "T" "age > :a" [(":a"%string, AttrN "3")])
   /\ offline_failed (findOperated "T" age_name_filter age_name_operators)
   /\ offline_failed (findWithin "T" "age" 1%Z 9%Z))
  /\ fst (insertOrUpdate "T" "id" id_name_item None offline_world) = offline_rejection
  /\ fst (deleteOne "T" "id" (JString "1") offline_world) = offline_rejection
  /\ fst (findOne "T" "id" (JString "1") offline_world) = offline_rejection
  /\ fst (findMany "T" "id" (JString "1") offline_world) = offline_rejection
  /\ fst (findManyByField "T" "name" (JString "a") offline_world) = offline_rejection
  /\ fst (findManyPlain "T" "age > :a" [(":a"%string, AttrN "3")] offline_world)
     = offline_rejection
  /\ fst (findOperated "T" age_name_filter age_name_operators offline_world)
     = offline_rejection
  /\ fst (findWithin "T" "age" 1%Z 9%Z offline_world) = offline_rejection.
Proof.
  assert (F1 : offline_failed (insertOrUpdate "T" "id" id_name_item None))
    by (eexists; split; reflexivity).
  assert (F2 : offline_failed (deleteOne "T" "id" (JString "1")))
    by (eexists; split; reflexivity).
  assert (F3 : offline_failed (findOne "T" "id" (JString "1")))
    by (eexists; split; reflexivity).
  assert (F4 : offline_failed (findMany "T" "id" (JString "1")))
    by (eexists; split; reflexivity).
  assert (F5 : offline_failed (findManyByField "T" "name" (JString "a")))
    by (eexists; split; reflexivity).
  assert (F6 : offline_failed (findManyPlain "T" "age > :a" [(":a"%string, AttrN "3")]))
    by (eexists; split; reflexivity).
  assert (F7 : offline_failed (findOperated "T" age_name_filter age_name_operators))
    by (eexists; split; reflexivity).
  assert (F8 : offline_failed (findWithin "T" "age" 1%Z 9%Z))
    by (eexists; split; reflexivity).
  destruct (store_errors_propagate (platform := offline_platform)
              "T" "id" "name" "age" "age > :a" id_name_item age_name_filter None
              (JString "1") (JString "a") [(":a"%string, AttrN "3")] age_name_operators
              1%Z 9%Z offline_world "offline"%string)
    as (H1 & H2 & H3 & H4 & H5 & H6 & H7 & H8).
  exact (conj (conj F1 (conj F2 (conj F3 (conj F4 (conj F5 (conj F6 (conj F7 F8)))))))
        (conj (proj1 (H1 F1))
        (conj (proj1 (H2 F2))
        (conj (proj1 (H3 F3))
        (conj (proj1 (H4 F4))
        (conj (proj1 (H5 F5))
        (conj (proj1 (H6 F6))
        (conj (proj1 (H7 F7)) (proj1 (H8 F8)))))))))).
Defined.

Lemma decoding_errors_propagate_witness :
  (decoding_fails [raw_seven; raw_broken; raw_seven] "not a number"%string
   /\ service client0
        (ScanCommand (plain_scan "T" "name = :u" [(":u"%string, AttrS (JString "a"))]))
        undecodable
      = (inr undecodable_page, empty_store)
   /\ service client0
        (ScanCommand (plain_scan "T" "age > :a" [(":a"%string, AttrN "3")])) undecodable
      = (inr undecodable_page, empty_store)
   /\ service client0 (ScanCommand (findWithin_scan "T" "age" 1%Z 9%Z)) undecodable
      = (inr undecodable_page, empty_store))
  /\ fst (findManyByField "T" "name" (JString "a") undecodable_world)
     = Throw (SdkThrown "not a number"%string)
  /\ fst (findManyPlain "T" "age > :a" [(":a"%string, AttrN "3")] undecodable_world)
     = Throw (SdkThrown "not a number"%string)
  /\ fst (findWithin "T" "age" 1%Z 9%Z undecodable_world)
     = Throw (SdkThrown "not a number"%string).
Proof.
  assert (Hd : decoding_fails [raw_seven; raw_broken; raw_seven] "not a number"%string).
  { exists [raw_seven], raw_broken, [raw_seven]. split; [reflexivity|]. split.
    - constructor; [|constructor]. exists seven. reflexivity.
    - reflexivity. }
  destruct (decoding_errors_propagate
              "T" "name" "age" "age > :a" (JString "a") [(":a"%string, AttrN "3")]
              1%Z 9%Z undecodable_world "not a number"%string
              [raw_seven; raw_broken; raw_seven] Hd)
    as (H1 & H2 & H3).
  split; [repeat split; exact Hd|].
  split; [exact (H1 undecodable_page empty_store eq_refl eq_refl)|].
  split; [exact (H2 undecodable_page empty_store eq_refl eq_refl)|].
  exact (H3 undecodable_page empty_store eq_refl eq_refl).
Defined.

Lemma field_and_plain_scans_decode_witness :
  (Forall2 (fun raw obj => unmarshall raw = inr obj) [raw_seven] [seven]
   /\ service client0
        (ScanCommand (plain_scan "T" "name = :u" [(":u"%string, AttrS (JString "a"))]))
        one_page
      = (inr {| s_Items := Some [raw_seven]; s_LastEvaluatedKey := None |}, empty_store)
   /\ service client0
        (ScanCommand (plain_scan "T" "age > :a" [(":a"%string, AttrN "3")])) one_page
      = (inr {| s_Items := Some [raw_seven]; s_LastEvaluatedKey := None |}, empty_store))
  /\ fst (findManyByField "T" "name" (JString "a") (world one_page))
     = Normal (JArray [JObject seven])
  /\ fst (findManyPlain "T" "age > :a" [(":a"%string, AttrN "3")] (world one_page))
     = Normal (JArray [JObject seven]).
Proof.
  assert (Hd : Forall2 (fun raw obj => unmarshall raw = inr obj) [raw_seven] [seven]).
  { constructor; [reflexivity | constructor]. }
  destruct (field_and_plain_scans_decode
              "T" "name" "age > :a" (JString "a") [(":a"%string, AttrN "3")]
              (world one_page) [raw_seven] [seven] Hd)
    as (H1 & H2 & _).
  split; [repeat split; exact Hd|].
  split.
  - exact (H1 {| s_Items := Some [raw_seven]; s_LastEvaluatedKey := None |} empty_store
              eq_refl eq_refl).
  - exact (H2 {| s_Items := Some [raw_seven]; s_LastEvaluatedKey := None |} empty_store
              eq_refl eq_refl).
Defined.

Lemma findOne_is_head_of_findMany_witness :
  (service client0 (findOne_query "T" "id" (JString "1")) holding
   = (inr {| q_Items := Some [seven; key_only_item] |}, holding))
  /\ fst (findMany "T" "id" (JString "1") (world holding))
     = Normal (JArray [JObject seven; JObject key_only_item])
  /\ fst (findOne "T" "id" (JString "1") (world holding)) = Normal (JObject seven).
Proof.
  destruct (findOne_is_head_of_findMany "T" "id" (JString "1") (world holding))
    as (_ & _ & _ & Hitems).
  split; [reflexivity|].
  exact (Hitems {| q_Items := Some [seven; key_only_item] |} holding seven
                [key_only_item] eq_refl eq_refl).
Defined.

Lemma one_scan_per_turn_witness :
  next_request (GenYielded (first_scan "T" 2)
                           {| s_Items := Some [raw_seven]; s_LastEvaluatedKey := None |})
  = None
  /\ next (GenYielded (first_scan "T" 2)
                      {| s_Items := Some [raw_seven]; s_LastEvaluatedKey := None |})
          (world two_pages)
     = (Normal (IterDone, GenCompleted), world two_pages).
Proof.
  split; [reflexivity|].
  exact (proj1 (proj2 (one_scan_per_turn
                         "T" None
                         (GenYielded (first_scan "T" 2)
                            {| s_Items := Some [raw_seven]; s_LastEvaluatedKey := None |})
                         (world two_pages)))
               eq_refl).
Defined.

Lemma empty_page_is_yielded_witness :
  (next_request (findAll "T" (Some 2)) = Some (first_scan "T" 2)
   /\ service client0 (ScanCommand (first_scan "T" 2)) empty_then_more
      = (inr empty_page, empty_store)
   /\ empty_result (s_Items empty_page))
  /\ next (findAll "T" (Some 2)) (world empty_then_more)
     = (Normal (IterValue [], GenYielded (first_scan "T" 2) empty_page),
        log_request client0 (ScanCommand (first_scan "T" 2)) empty_store
                    (world empty_then_more))
  /\ next_request (GenYielded (first_scan "T" 2) empty_page)
     = Some (continue_from (first_scan "T" 2) raw_seven).
Proof.
  assert (He : empty_result (s_Items empty_page)) by (now right).
  split; [repeat split; exact He|].
  exact (empty_page_is_yielded (findAll "T" (Some 2)) (world empty_then_more)
           (first_scan "T" 2) empty_page empty_store eq_refl eq_refl He).
Defined.

Lemma findAll_drops_undecodable_page_witness :
  (next_request (findAll "T" (Some 5)) = Some (first_scan "T" 5)
   /\ service client0 (ScanCommand (first_scan "T" 5)) undecodable
      = (inr undecodable_page, empty_store)
   /\ decoding_fails [raw_seven; raw_broken; raw_seven] "not a number"%string)
  /\ next (findAll "T" (Some 5)) undecodable_world
     = (Normal (IterDone, GenCompleted),
        log_console (SdkThrown "not a number"%string)
          (log_request client0 (ScanCommand (first_scan "T" 5)) empty_store
                       undecodable_world)).
Proof.
  assert (Hd : decoding_fails [raw_seven; raw_broken; raw_seven] "not a number"%string).
  { exists [raw_seven], raw_broken, [raw_seven]. split; [reflexivity|]. split.
    - constructor; [|constructor]. exists seven. reflexivity.
    - reflexivity. }
  split; [repeat split; exact Hd|].
  exact (findAll_drops_undecodable_page
           (findAll "T" (Some 5)) undecodable_world (first_scan "T" 5) undecodable_page
           empty_store [raw_seven; raw_broken; raw_seven] "not a number"%string
           eq_refl eq_refl eq_refl Hd).
Defined.

Lemma one_scan_per_batch_witness :
  (consume 5 (findAll "T" (Some 2)) (world page_then_failure)
   = (Normal ([[seven]], true),
      snd (consume 5 (findAll "T" (Some 2)) (world page_then_failure)))
   /\ consume 1 (findAll "T" (Some 2)) (world two_pages)
      = (Normal ([[seven; seven]], false),
         snd (consume 1 (findAll "T" (Some 2)) (world two_pages))))
  /\ (exists logs,
        console (snd (consume 5 (findAll "T" (Some 2)) (world page_then_failure)))
        = console (world page_then_failure) ++ logs
        /\ length logs <= 1
        /\ length (issued (consume 5 (findAll "T" (Some 2))) (world page_then_failure))
           = length [[seven]] + length logs)
  /\ length (issued (consume 1 (findAll "T" (Some 2))) (world two_pages)) = 1.
Proof.
  destruct (one_scan_per_batch 5 (findAll "T" (Some 2)) (world page_then_failure)
              _ [[seven]] true eq_refl) as (logs & Hc & Hl & Hn & _ & _).
  destruct (one_scan_per_batch 1 (findAll "T" (Some 2)) (world two_pages)
              _ [[seven; seven]] false eq_refl) as (logs' & _ & _ & Hn' & _ & Hd').
  split; [split; reflexivity|].
  split; [exists logs; auto|].
  destruct (Hd' eq_refl) as [-> _]. exact Hn'.
Defined.

Lemma calls_leave_configuration_alone_witness :
  (is_setter (CallFindWithin "T" "age" 1%Z 9%Z) = false
   /\ is_turn (CallFindWithin "T" "age" 1%Z 9%Z) = false
   /\ is_setter (CallSetConfig {| accessKeyId := Some "k"%string;
                                  secretAccessKey := Some "s"%string |} None
                 : Call (number := Z)) = true)
  /\ length (sent (perform (CallFindWithin "T" "age" 1%Z 9%Z) (world failing)))
     <= S (length (sent (world failing)))
  /\ console (perform (CallFindWithin "T" "age" 1%Z 9%Z) (world failing))
     = console (world failing)
  /\ sent (perform (CallSetConfig {| accessKeyId := Some "k"%string;
                                     secretAccessKey := Some "s"%string |} None)
                   (world failing))
     = sent (world failing).
Proof.
  destruct (calls_leave_configuration_alone
              (CallFindWithin "T" "age" 1%Z 9%Z) (world failing)) as [Hf _].
  destruct (calls_leave_configuration_alone
              (CallSetConfig {| accessKeyId := Some "k"%string;
                                secretAccessKey := Some "s"%string |} None)
              (world failing)) as [_ Hs].
  destruct (Hf eq_refl) as (Hlen & _ & _ & _ & _ & _ & Hcon).
  split; [repeat split|].
  split; [exact Hlen|]. split; [exact (Hcon eq_refl) | exact (proj1 (Hs eq_refl))].
Defined.
